(** * noLatency / gostream: the remote view engine and the input relay

    A shallow embedding of the two Go packages of the repository:

    - package [gostream] (the view engine): the connection registry
      ([addRemoteClient], [removeRemoteClient], [getRemoteClients]), the
      frame pipeline ([processInputFrames], [initCodec],
      [processOutputFrames]), the connection goroutine of [Handler] and the
      two data-channel callbacks installed by [Handler];
    - package [direct] (the input relay): [Handle], [HandleKey], [HandlePtr].

    Go code runs for its effects.  Every function is embedded in a small
    monad that threads the mutable fields of the view and the state of the
    transport, collects the observable calls (encoder, tracks, data
    channels, callbacks, logger) in a trace, and distinguishes a normal
    return from a Go panic. *)

From Stdlib Require Import ZArith String Ascii List Lia.
From Stdlib Require Import Strings.Byte.
From stdpp Require Import base option list gmap strings pretty.

Open Scope Z_scope.

(** ** Go values *)

(** A Go [error] is identified with the text of its [Error()] method. *)
Abbreviation error := string (only parsing).

(** [[]byte]; a nil slice is [None] where the code tests for nil. *)
Abbreviation bytes := (list byte) (only parsing).

(** Go's [int] is 64 bits wide on the platforms the program targets. *)
Definition wrap64 (z : Z) : Z := (z + 2 ^ 63) mod 2 ^ 64 - 2 ^ 63.

(** Package [image] of the Go library: a rectangle and its extent. *)
Record Point := { X : Z; Y : Z }.
Record Rectangle := { Min : Point; Max : Point }.

Definition Dx (r : Rectangle) : Z := wrap64 (X (Max r) - X (Min r)).
Definition Dy (r : Rectangle) : Z := wrap64 (Y (Max r) - Y (Min r)).

(** A non-nil [image.Image]: its bounds and its pixel data. *)
Record image := { Bounds : Rectangle; Pix : bytes }.

(** [media.Sample] of the transport library; the duration is in
    nanoseconds, as [time.Duration] is. *)
Record media_Sample := { Data : bytes; Duration : Z }.

Definition Millisecond : Z := 1000000.

(** ** Results and traces *)

(** The outcome of a call: a normal return, or a panic that unwinds the
    goroutine and aborts the process. *)
Inductive result (A : Type) : Type :=
| Returns (a : A)
| Panics (v : string).
Arguments Returns {A} a.
Arguments Panics {A} v.

(** Modelled from the spec: the [Encoder] interface is declared outside the
    files at hand; section 6 gives [encoder.encode(image) ->
    optional-sample-or-error]. *)
Inductive EncodeResult : Type :=
| EncodeError (err : error)
| EncodeOutput (encodedFrame : option bytes).

Inductive goroutine : Type := GoProcessInputFrames | GoProcessOutputFrames.

Inductive level : Type := LvlDebug | LvlError.

(** The calls a run makes on its collaborators, in program order. *)
Inductive event : Type :=
| EvFactoryNew (width height : Z)
| EvEncode (frame : image) (r : EncodeResult)
| EvWriteSample (track : positive) (s : media_Sample) (err : option error)
| EvSendText (channel : positive) (msg : string) (err : option error)
| EvSend (channel : positive) (data : bytes) (err : option error)
| EvOnData (handler : positive) (data : bytes)
| EvOnClick (handler : positive) (x y : Z)
| EvLog (lvl : level) (msg : string)
| EvCloseReadyCh
| EvGo (g : goroutine).

(** ** The view *)

(** [remoteClient]: the two pointers are identified by their addresses. *)
Record remoteClient := { dataChannel : positive; videoTrack : positive }.

Global Instance remoteClient_eq_dec : EqDecision remoteClient.
Proof. solve_decision. Defined.

(** Modelled from the spec: the command envelope, the response envelope and
    the command registry are declared outside the files at hand.  Section 3:
    a command is a named request with an argument payload, a response a
    payload plus a text-or-binary flag, a handler a function from the
    command to response-or-error. *)
Record Command := { cmdName : string; cmdArgs : list string }.
Record CommandResponse := { data : bytes; isText : bool }.
Abbreviation CommandHandler := (Command → error + option CommandResponse).

(** The mutable fields of [basicRemoteView].  [readyOnce] is the done flag
    of the [sync.Once]; [readyCh] is [true] once the channel is closed;
    [shutdownCtx] is [true] once the context is cancelled;
    [outputFrames] holds the samples sent and not yet received, and
    [outputFramesClosed] whether the channel is closed.  The callbacks are
    identified by names: a call is recorded in the trace.  Of the
    configuration, the pipeline reads [Debug] only. *)
Record basicRemoteView (Enc : Type) := {
  config_Debug : bool;
  readyOnce : bool;
  readyCh : bool;
  peerToRemoteClient : gmap positive remoteClient;
  outputFrames : list bytes;
  outputFramesClosed : bool;
  encoder : option Enc;
  onDataHandler : option positive;
  onClickHandler : option positive;
  commandRegistry : gmap string CommandHandler;
  shutdownCtx : bool;
  backgroundProcessing : Z;
}.
Arguments config_Debug {Enc} _.
Arguments readyOnce {Enc} _.
Arguments readyCh {Enc} _.
Arguments peerToRemoteClient {Enc} _.
Arguments outputFrames {Enc} _.
Arguments outputFramesClosed {Enc} _.
Arguments encoder {Enc} _.
Arguments onDataHandler {Enc} _.
Arguments onClickHandler {Enc} _.
Arguments commandRegistry {Enc} _.
Arguments shutdownCtx {Enc} _.
Arguments backgroundProcessing {Enc} _.

(** [NewRemoteView], past its configuration checks. *)
Definition NewRemoteView {Enc : Type} (debug : bool) : basicRemoteView Enc :=
  {| config_Debug := debug;
     readyOnce := false; readyCh := false;
     peerToRemoteClient := ∅;
     outputFrames := []; outputFramesClosed := false;
     encoder := None;
     onDataHandler := None; onClickHandler := None;
     commandRegistry := ∅;
     shutdownCtx := false;
     backgroundProcessing := 0 |}.

(** The state a run threads: the view, the transport, and the number of
    [range] statements over the registry the program has run so far: the
    runtime picks the order of each of them anew. *)
Record machine (Enc W : Type) := {
  brv : basicRemoteView Enc;
  net : W;
  ranges : nat;
}.
Arguments brv {Enc W} _.
Arguments net {Enc W} _.
Arguments ranges {Enc W} _.

(** ** The monad *)

Section Monad.
Context {St : Type}.

(** A computation returns its outcome, the state it leaves (also when
    it panics: what was done before stays done) and the calls it made. *)
Definition M (A : Type) : Type := St → result A * St * list event.

Definition ret {A} (a : A) : M A := λ s, (Returns a, s, []).

Definition bind {A B} (m : M A) (k : A → M B) : M B :=
  λ s, match m s with
       | (Returns a, s1, t1) =>
           match k a s1 with (r, s2, t2) => (r, s2, t1 ++ t2) end
       | (Panics v, s1, t1) => (Panics v, s1, t1)
       end.

Definition panic {A} (v : string) : M A := λ s, (Panics v, s, []).
Definition emit (e : event) : M unit := λ s, (Returns tt, s, [e]).
Definition get : M St := λ s, (Returns s, s, []).
Definition put (s : St) : M unit := λ _, (Returns tt, s, []).
Definition gets {A} (f : St → A) : M A := λ s, (Returns (f s), s, []).
Definition modify (f : St → St) : M unit := λ s, (Returns tt, f s, []).
End Monad.
Arguments M : clear implicits.

Notation "'let!' x ':=' m 'in' k" := (bind m (λ x, k))
  (at level 10, x name, m at level 100, k at level 200, only parsing).
Notation "m ';;' k" := (bind m (λ _, k))
  (at level 100, k at level 200, right associativity, only parsing).

Definition outcome {St A} (r : result A * St * list event) : result A := r.1.1.
Definition final {St A} (r : result A * St * list event) : St := r.1.2.
Definition trace {St A} (r : result A * St * list event) : list event := r.2.
Arguments outcome {St A} !r /.
Arguments final {St A} !r /.
Arguments trace {St A} !r /.

(** A run with the calls [t] made before it. *)
Definition after {St A} (t : list event) (r : result A * St * list event)
  : result A * St * list event :=
  (outcome r, final r, t ++ trace r).

(** What a trace shows of each collaborator. *)
Definition factoryCalls (t : list event) : list (Z * Z) :=
  omap (λ e, match e with EvFactoryNew w h => Some (w, h) | _ => None end) t.

Definition encodeCalls (t : list event) : list (image * EncodeResult) :=
  omap (λ e, match e with EvEncode frame r => Some (frame, r) | _ => None end) t.

(** The samples of the images for which the encoder returned one. *)
Definition encodedSamples (t : list event) : list bytes :=
  omap (λ e, match e with
             | EvEncode _ (EncodeOutput (Some encodedFrame)) => Some encodedFrame
             | _ => None
             end) t.

(** The [WriteSample] calls a track has seen. *)
Definition writesTo (track : positive) (t : list event) : list media_Sample :=
  omap (λ e, match e with
             | EvWriteSample tr smp _ => if decide (tr = track) then Some smp else None
             | _ => None
             end) t.

Definition is_readyEvent (e : event) : bool :=
  match e with
  | EvCloseReadyCh | EvGo _ => true
  | _ => false
  end.

(** The closes of [readyCh] and the starts of the pipeline loops. *)
Definition readyEvents (t : list event) : list event := filter is_readyEvent t.

(** ** Library functions the callbacks use *)

(** [string(b)] and [[]byte(s)]: a Go string is a sequence of bytes. *)
Definition string_of_bytes (b : bytes) : string := string_of_list_byte b.

(** [strings.Split(s, ",")]: the fields between the commas; a string
    without comma is its own single field. *)
Fixpoint strings_Split_comma (s : string) : list string :=
  match s with
  | EmptyString => [EmptyString]
  | String c rest =>
      if Ascii.eqb c ","%char then EmptyString :: strings_Split_comma rest
      else match strings_Split_comma rest with
           | field :: fields => String c field :: fields
           | [] => [String c EmptyString]
           end
  end.

(** A [float64]: a finite value [m * 2^e], an infinity or a NaN. *)
Inductive float64 : Type :=
| Finite (m e : Z)
| Inf (neg : bool)
| NaN.

(** The value of a finite [float64] with its fraction cut off (rounded
    towards zero). *)
Definition truncate (x : float64) : option Z :=
  match x with
  | Finite m e => Some (if 0 <=? e then m * 2 ^ e else Z.quot m (2 ^ (- e)))
  | _ => None
  end.


(** [int(x)] for an [x] whose integer part no [int] holds, as the amd64
    compiler gives it: the conversion instruction answers with the smallest
    [int]. *)
Definition int_unrepresentable_amd64 (x : float64) : Z := - 2 ^ 63.

(** [strconv.ParseFloat(s, 32)] on plain decimal literals: an optional
    sign, digits with an optional point, an optional decimal exponent.
    The value is rounded to the nearest number with a 24-bit mantissa, ties
    to even.  The error is the [Err] field of the [NumError]. *)
Definition digit_of (c : ascii) : option Z :=
  let n := Z.of_N (N_of_ascii c) in
  if (48 <=? n) && (n <=? 57) then Some (n - 48) else None.

Fixpoint read_digits (s : string) (acc count : Z) : Z * Z * string :=
  match s with
  | String c rest =>
      match digit_of c with
      | Some d => read_digits rest (10 * acc + d) (count + 1)
      | None => (acc, count, s)
      end
  | EmptyString => (acc, count, s)
  end.

Definition read_sign (s : string) : bool * string :=
  match s with
  | String c rest =>
      if Ascii.eqb c "-"%char then (true, rest)
      else if Ascii.eqb c "+"%char then (false, rest)
      else (false, s)
  | EmptyString => (false, s)
  end.

(** The sign, the decimal mantissa and the decimal exponent of a literal. *)
Definition parse_decimal (s : string) : option (bool * Z * Z) :=
  let '(neg, s1) := read_sign s in
  let '(int_part, int_digits, s2) := read_digits s1 0 0 in
  let '(mant, frac_digits, s3) :=
    match s2 with
    | String c rest =>
        if Ascii.eqb c "."%char then read_digits rest int_part 0
        else (int_part, 0, s2)
    | EmptyString => (int_part, 0, s2)
    end in
  if int_digits + frac_digits =? 0 then None
  else
    match s3 with
    | EmptyString => Some (neg, mant, - frac_digits)
    | String c rest =>
        if Ascii.eqb c "e"%char || Ascii.eqb c "E"%char then
          let '(exp_neg, s4) := read_sign rest in
          let '(exp, exp_digits, s5) := read_digits s4 0 0 in
          if exp_digits =? 0 then None
          else match s5 with
               | EmptyString =>
                   Some (neg, mant, (if exp_neg then - exp else exp) - frac_digits)
               | _ => None
               end
        else None
    end.

(** The number [n / d] (with [0 <= n], [0 < d]) rounded to binary32. *)
Definition round_binary32 (neg : bool) (n d : Z) : float64 * option error :=
  if n =? 0 then (Finite 0 0, None)
  else
    let scaled e := (n * 2 ^ Z.max 0 (- e), d * 2 ^ Z.max 0 e) in
    let e0 := Z.log2 n - Z.log2 d - 24 in
    let e1 := if (scaled e0).1 / (scaled e0).2 <? 2 ^ 24 then e0 else e0 + 1 in
    let e := Z.max e1 (- 149) in
    let '(num, den) := scaled e in
    let m := num / den in
    let r := num mod den in
    let m' := if (den <? 2 * r) || ((den =? 2 * r) && Z.odd m) then m + 1 else m in
    if (105 <=? e) || ((e =? 104) && (2 ^ 24 <=? m'))
    then (Inf neg, Some "value out of range")
    else (Finite (if neg then - m' else m') e, None).

Definition ParseFloat32_decimal (s : string) : float64 * option error :=
  match parse_decimal s with
  | None => (Finite 0 0, Some "invalid syntax")
  | Some (neg, mant, exp10) =>
      if 0 <=? exp10 then round_binary32 neg (mant * 10 ^ exp10) 1
      else round_binary32 neg mant (10 ^ (- exp10))
  end.

(** [webrtc.DataChannelMessage]. *)
Record DataChannelMessage := { IsString : bool; msg_Data : bytes }.

(** Modelled from the spec: [CommandRegistry.Process] is defined outside
    the files at hand.  Section 4.4: process looks up the handler by exact
    name match; unknown names yield a "no such command" error;
    handler-internal errors are returned, not swallowed. *)
Definition CommandRegistry_Process (registry : gmap string CommandHandler) (cmd : Command)
  : error + option CommandResponse :=
  match registry !! cmdName cmd with
  | None => inl "no such command"
  | Some handler => handler cmd
  end.

(** ** Package direct: the input relay *)

(** Modelled from the spec: package [input] is outside the files at hand.
    Section 6: an untyped envelope with a [type] discriminator of ["key"]
    or ["mouse"]; section 3: a raw event carries a type tag plus
    type-specific fields. *)
Record RawEvent := { Type_ : string }.
Definition KeyEventType : string := "key".
Definition MouseEventType : string := "mouse".

Section Relay.
(** The two variants, with the value a Go declaration gives them. *)
Context {KeyEvent MouseEvent : Type}.
Variable zeroKeyEvent : KeyEvent.
Variable zeroMouseEvent : MouseEvent.

(** [json.Unmarshal(data, &v)] at the three types: the value it leaves in
    [v] and its error. *)
Variable Unmarshal_RawEvent : bytes → RawEvent → RawEvent * option error.
Variable Unmarshal_KeyEvent : bytes → KeyEvent → KeyEvent * option error.
Variable Unmarshal_MouseEvent : bytes → MouseEvent → MouseEvent * option error.

(** What the relay writes to its standard output. *)
Inductive printed : Type :=
| SendingPtr (ev : MouseEvent)
| SendingKey (ev : KeyEvent).

(** [other.go]: each handler prints its event and returns a nil error. *)
Definition HandlePtr (ev : MouseEvent) : list printed * option error :=
  ([SendingPtr ev], None).

Definition HandleKey (ev : KeyEvent) : list printed * option error :=
  ([SendingKey ev], None).

(** [Handle]: the errors of [json.Unmarshal] and of the handlers are
    dropped. *)
Definition Handle (payload : bytes) : list printed :=
  let raw := (Unmarshal_RawEvent payload {| Type_ := "" |}).1 in
  if String.eqb (Type_ raw) KeyEventType then
    let ev := (Unmarshal_KeyEvent payload zeroKeyEvent).1 in
    (HandleKey ev).1
  else if String.eqb (Type_ raw) MouseEventType then
    let ev := (Unmarshal_MouseEvent payload zeroMouseEvent).1 in
    (HandlePtr ev).1
  else [].
End Relay.
Arguments printed : clear implicits.

(** ** The parts of [Handler] and of the page that do not touch the view *)

(** [streamNum] and the name [Handler] gives its route: [%d] prints the
    number in decimal, with a minus sign when it is negative. *)
Definition streamNum (StreamNumber : Z) : Z :=
  if negb (StreamNumber =? 0) then StreamNumber else 0.

Definition handlerName (StreamNumber : Z) : string :=
  "offer_" +:+ pretty (streamNum StreamNumber).

(** *** Reading the offer *)

(** The [bufio.Reader] on the body of the request: what is not read yet,
    and what the body ends with, [None] standing for [io.EOF] and [Some]
    for another error of the connection. *)
Record reader := { unread : string; ending : option error }.

Inductive readError : Type :=
| NoError
| EOF
| ReadFailed (err : error).

(** The first line of a string with its newline, and what follows it. *)
Fixpoint cut_line (s : string) : option (string * string) :=
  match s with
  | EmptyString => None
  | String c rest =>
      if Ascii.eqb c "010"%char then Some (String c EmptyString, rest)
      else match cut_line rest with
           | Some (line, rest') => Some (String c line, rest')
           | None => None
           end
  end.

(** [reader.ReadString('\n')]: the data up to and including the newline;
    without a newline, the data that is left and the error the body ends
    with. *)
Definition ReadString_newline (r : reader) : string * readError * reader :=
  match cut_line (unread r) with
  | Some (line, rest) => (line, NoError, {| unread := rest; ending := ending r |})
  | None =>
      (unread r,
       match ending r with None => EOF | Some err => ReadFailed err end,
       {| unread := EmptyString; ending := ending r |})
  end.

Section Offer.
(** [strings.TrimSpace]. *)
Variable strings_TrimSpace : string → string.

(** The loop of [Handler] that reads the offer, for [rounds] rounds: it
    panics on an error that is not [io.EOF], and breaks with the first line
    that is not empty once trimmed; [Returns None] is a loop that has not
    left after these rounds. *)
Fixpoint readOffer (rounds : nat) (r : reader) : result (option string) :=
  match rounds with
  | O => Returns None
  | S rounds' =>
      let '(line, err, r') := ReadString_newline r in
      match err with
      | ReadFailed e => Panics e
      | _ =>
          let trimmed := strings_TrimSpace line in
          if (0 <? String.length trimmed)%nat then Returns (Some trimmed)
          else readOffer rounds' r'
      end
  end.
End Offer.

(** The lines of a string, each with its newline; the last one is what
    follows the last newline, when there is anything. *)
Fixpoint lines (s : string) : list string :=
  match s with
  | EmptyString => []
  | String c rest =>
      if Ascii.eqb c "010"%char then String c EmptyString :: lines rest
      else match lines rest with
           | [] => [String c EmptyString]
           | line :: others => String c line :: others
           end
  end.

(** *** The statistics of a connection *)

(** The statistics [GetStats] reports, as far as the program looks at
    them: the types of the transport library. *)
Inductive StatsType : Type :=
| StatsTypeLocalCandidate
| StatsTypeRemoteCandidate
| StatsTypeOther.

Inductive ICECandidateType : Type :=
| ICECandidateTypeUnknown
| ICECandidateTypeHost
| ICECandidateTypeSrflx
| ICECandidateTypePrflx
| ICECandidateTypeRelay.

Inductive Stats : Type :=
| PeerConnectionStats (ID : string)
| ICECandidateStats (Type_ : StatsType) (CandidateType : ICECandidateType) (IP : string)
| OtherStats.

(** The [switch] of [getPeerConnectionStats]. *)
Definition candidateTypeName (t : ICECandidateType) : string :=
  match t with
  | ICECandidateTypeRelay => "relay"
  | ICECandidateTypePrflx => "peer-reflexive"
  | ICECandidateTypeSrflx => "server-reflexive"
  | _ => ""
  end.

(** One round of the loop of [getPeerConnectionStats]. *)
Definition statsRound (acc : string * gmap string string) (stat : Stats)
  : string * gmap string string :=
  let connID := match stat with PeerConnectionStats ID => ID | _ => acc.1 end in
  match stat with
  | ICECandidateStats StatsTypeRemoteCandidate CandidateType IP =>
      let candidateType := candidateTypeName CandidateType in
      if String.eqb candidateType "" then (connID, acc.2)
      else (connID, <[candidateType := IP]> acc.2)
  | _ => (connID, acc.2)
  end.

(** [getPeerConnectionStats] on the statistics in the order the [range]
    over the report visits them. *)
Definition getPeerConnectionStats (stats : list Stats) : string * gmap string string :=
  foldl statsRound (EmptyString, ∅) stats.

(** *** The ICE servers of the page *)

(** [webrtc.ICEServer]; [Credential] is [Some] when the credential is a
    string. *)
Record ICEServer := {
  URLs : list string;
  Username : string;
  Credential : option string;
}.

(** [bytes.Buffer]: [WriteString], and [Truncate], which panics out of
    range. *)
Definition WriteString (s : string) : M string unit := modify (λ buf, buf +:+ s).

Definition Truncate (n : Z) : M string unit :=
  let! buf := get in
  if (n <? 0) || (Z.of_nat (String.length buf) <? n)
  then panic "bytes.Buffer: truncation out of range"
  else put (String.substring 0 (Z.to_nat n) buf).

Definition Buffer_Len : M string Z := gets (λ buf, Z.of_nat (String.length buf)).

(** The inner loop of [iceServers], over the URLs of a server. *)
Fixpoint writeURLs (urls : list string) : M string unit :=
  match urls with
  | [] => ret tt
  | u :: rest => WriteString u ;; WriteString "'," ;; writeURLs rest
  end.

(** The body of the outer loop. *)
Definition writeServer (server : ICEServer) : M string unit :=
  WriteString "{" ;;
  WriteString "urls: ['" ;;
  writeURLs (URLs server) ;;
  (if (0 <? length (URLs server))%nat
   then (let! n := Buffer_Len in Truncate (n - 1))
   else ret tt) ;;
  WriteString "]" ;;
  (if negb (String.eqb (Username server) "")
   then (WriteString ",username:'" ;; WriteString (Username server) ;; WriteString "'")
   else ret tt) ;;
  (match Credential server with
   | Some cred => WriteString ",credential:'" ;; WriteString cred ;; WriteString "'"
   | None => ret tt
   end) ;;
  WriteString "},".

Fixpoint writeServers (servers : list ICEServer) : M string unit :=
  match servers with
  | [] => ret tt
  | server :: rest => writeServer server ;; writeServers rest
  end.

(** [iceServers], run on the empty buffer it declares; the result is the
    [String()] of the buffer. *)
Definition iceServers (servers : list ICEServer) : M string unit :=
  WriteString "[" ;;
  writeServers servers ;;
  (if (0 <? length servers)%nat
   then (let! n := Buffer_Len in Truncate (n - 1))
   else ret tt) ;;
  WriteString "]".

(** The text of the URLs of a server and of a server, written down
    directly. *)
Definition urlsText (urls : list string) : string :=
  match urls with
  | [] => ""
  | _ => String.concat "'," urls +:+ "'"
  end.

Definition serverText (server : ICEServer) : string :=
  "{urls: ['" +:+ urlsText (URLs server) +:+ "]" +:+
  (if negb (String.eqb (Username server) "")
   then ",username:'" +:+ Username server +:+ "'" else "") +:+
  (match Credential server with
   | Some cred => ",credential:'" +:+ cred +:+ "'"
   | None => ""
   end) +:+ "}".

(** What a loop that writes every item followed by [t] leaves in the
    buffer. *)
Definition trailing (t : string) (l : list string) : string :=
  foldr (λ x acc, x +:+ t +:+ acc) "" l.

(** ** A test bench *)

(** Collaborators to run the engine on: an encoder that counts its frames
    and returns the pixel data of a frame when there is any, and no output
    when there is none; a transport that counts its calls and, for
    [bench_WriteSample_failing], fails on one track; a command parser that
    takes the text of the message for the name of the command. *)
Definition bench_frame (width height : Z) (pix : bytes) : image :=
  {| Bounds := {| Min := {| X := 0; Y := 0 |}; Max := {| X := width; Y := height |} |};
     Pix := pix |}.

Definition bench_New (width height : Z) : error + nat := inr 0%nat.

Definition bench_Encode (enc : nat) (frame : image) : nat * EncodeResult :=
  (S enc, EncodeOutput (match Pix frame with [] => None | pix => Some pix end)).

Definition bench_WriteSample (w : nat) (track : positive) (smp : media_Sample)
  : nat * option error :=
  (S w, None).

Definition bench_WriteSample_failing (bad : positive) (w : nat) (track : positive)
    (smp : media_Sample) : nat * option error :=
  (S w, if decide (track = bad) then Some "write failed" else None).

Definition bench_SendText (w : nat) (channel : positive) (msg : string)
  : nat * option error :=
  (S w, None).

Definition bench_Send (w : nat) (channel : positive) (payload : bytes)
  : nat * option error :=
  (S w, None).

Definition bench_UnmarshalCommand (s : string) : error + Command :=
  match s with
  | EmptyString => inl "empty command"
  | _ => inr {| cmdName := s; cmdArgs := [] |}
  end.

Definition bench_range (n : nat) (m : gmap positive remoteClient)
  : list (positive * remoteClient) :=
  map_to_list m.

(** A runtime that turns the order round at every other [range]. *)
Definition bench_range_turning (n : nat) (m : gmap positive remoteClient)
  : list (positive * remoteClient) :=
  if Nat.even n then map_to_list m else reverse (map_to_list m).

Definition bench_client1 : remoteClient := {| dataChannel := 10; videoTrack := 11 |}.
Definition bench_client2 : remoteClient := {| dataChannel := 20; videoTrack := 21 |}.

(** A command whose response is binary. *)
Definition bench_snapshot : CommandHandler :=
  λ _, inr (Some {| data := [x89; x50]; isText := false |}).

(** A command that fails. *)
Definition bench_fail : CommandHandler := λ _, inl "not now".

(** A view past its first attach, with the clients, the sample queue, the
    callbacks and the commands given. *)
Definition bench_view (clients : gmap positive remoteClient) (queue : list bytes)
    (onData onClick : option positive) : basicRemoteView nat :=
  {| config_Debug := false;
     readyOnce := true; readyCh := true;
     peerToRemoteClient := clients;
     outputFrames := queue; outputFramesClosed := false;
     encoder := None;
     onDataHandler := onData; onClickHandler := onClick;
     commandRegistry := {[ "snapshot" := bench_snapshot; "fail" := bench_fail ]};
     shutdownCtx := false;
     backgroundProcessing := 2 |}.

Definition bench_state (clients : gmap positive remoteClient) (queue : list bytes)
    (onData onClick : option positive) : machine nat nat :=
  {| brv := bench_view clients queue onData onClick; net := 0%nat; ranges := 0 |}.

Definition bench_text (s : string) : DataChannelMessage :=
  {| IsString := true; msg_Data := list_byte_of_string s |}.

(** The inputs of the examples. *)
Definition bench_one_client : gmap positive remoteClient :=
  {[ 1%positive := bench_client1 ]}.

Definition bench_two_clients : gmap positive remoteClient :=
  {[ 1%positive := bench_client1; 2%positive := bench_client2 ]}.

(** Three images, the second of which the encoder has no output for. *)
Definition bench_frames : list (option image) :=
  [Some (bench_frame 4 3 [x01]); Some (bench_frame 4 3 []); Some (bench_frame 4 3 [x03])].

(** A stand-in for [json.Unmarshal] in the relay: the first byte of the
    payload tells its type, an empty payload is rejected; a key event is a
    key code and a mouse event a position. *)
Definition bench_Unmarshal_RawEvent (payload : bytes) (raw : RawEvent)
  : RawEvent * option error :=
  match payload with
  | [] => (raw, Some "unexpected end of JSON input")
  | b :: _ =>
      if Byte.eqb b "k"%byte then ({| Type_ := "key" |}, None)
      else if Byte.eqb b "m"%byte then ({| Type_ := "mouse" |}, None)
      else ({| Type_ := "touch" |}, None)
  end.

Definition bench_Unmarshal_KeyEvent (payload : bytes) (ev : nat) : nat * option error :=
  (length payload, None).

Definition bench_Unmarshal_MouseEvent (payload : bytes) (ev : Z * Z)
  : (Z * Z) * option error :=
  ((Z.of_nat (length payload), 0), None).

(** A factory that has no encoder to give. *)
Definition bench_New_failing (width height : Z) : error + nat := inl "no encoder".

(** An encoder that fails on an image without pixel data. *)
Definition bench_Encode_failing (enc : nat) (frame : image) : nat * EncodeResult :=
  (S enc, match Pix frame with [] => EncodeError "no pixels" | pix => EncodeOutput (Some pix) end).

(** A data channel whose sends fail on one channel. *)
Definition bench_SendText_failing (bad : positive) (w : nat) (channel : positive)
    (msg : string) : nat * option error :=
  (S w, if decide (channel = bad) then Some "channel closed" else None).

(** [strings.TrimSpace] on ASCII text: the white space is the tab, the
    newline, the vertical tab, the form feed, the carriage return and the
    space. *)
Definition is_space (c : ascii) : bool :=
  let n := nat_of_ascii c in ((9 <=? n) && (n <=? 13) || (n =? 32))%nat.

Fixpoint trim_left (s : string) : string :=
  match s with
  | String c rest => if is_space c then trim_left rest else s
  | EmptyString => EmptyString
  end.

Definition bench_TrimSpace (s : string) : string :=
  String.rev (trim_left (String.rev (trim_left s))).

Definition newline : string := String "010"%char EmptyString.

(** A body of two blank lines, the offer, and a line that is cut by an
    error of the connection. *)
Definition bench_body : reader :=
  {| unread := newline +:+ "  " +:+ newline +:+ " v=0 " +:+ newline +:+ "rest";
     ending := Some "connection reset" |}.

(** A body of white space. *)
Definition bench_blank_body (ending : option error) : reader :=
  {| unread := newline +:+ "  " +:+ newline +:+ " "; ending := ending |}.

(** The statistics of a connection with a relayed remote candidate, a host
    remote candidate and a reflexive local candidate. *)
Definition bench_stats : list Stats :=
  [ICECandidateStats StatsTypeRemoteCandidate ICECandidateTypeRelay "203.0.113.7";
   PeerConnectionStats "PeerConnection-1";
   ICECandidateStats StatsTypeRemoteCandidate ICECandidateTypeHost "192.0.2.1";
   ICECandidateStats StatsTypeLocalCandidate ICECandidateTypeSrflx "198.51.100.2";
   OtherStats].

(** A STUN server, a TURN server with two URLs and an account, and a
    server without URLs. *)
Definition bench_servers : list ICEServer :=
  [{| URLs := ["stun:a"]; Username := ""; Credential := None |};
   {| URLs := ["turn:b"; "turn:c"]; Username := "u"; Credential := Some "p" |};
   {| URLs := []; Username := ""; Credential := None |}].

(** ** Package gostream: the view engine *)

Section View.
(** The collaborators of the view.  [Enc] is the state of an encoder
    object and [W] the state of the transport; a call may change it. *)
Context {Enc W : Type}.

(** Modelled from the spec: the encoder capability is declared outside
    the files at hand; section 6 gives [new(width, height) ->
    encoder-or-error] and [encoder.encode(image) ->
    optional-sample-or-error]. *)
Variable EncoderFactory_New : Z → Z → error + Enc.
Variable Encoder_Encode : Enc → image → Enc * EncodeResult.

(** The transport library: [TrackLocalStaticSample.WriteSample],
    [DataChannel.SendText] and [DataChannel.Send]. *)
Variable WriteSample : W → positive → media_Sample → W * option error.
Variable DataChannel_SendText : W → positive → string → W * option error.
Variable DataChannel_Send : W → positive → bytes → W * option error.

(** The order in which [range] visits the entries of a map is not
    specified, and Go starts each [range] at a place of its own choice:
    [rangeMap n m] is the order of the [n]-th [range] of the run, on the
    map [m].  Any order is a permutation of the entries. *)
Variable rangeMap : nat → gmap positive remoteClient → list (positive * remoteClient).
Hypothesis rangeMap_perm : ∀ n m, rangeMap n m ≡ₚ map_to_list m.

Abbreviation view := (basicRemoteView Enc).
Abbreviation state := (machine Enc W).
Abbreviation Go := (M state).

(** *** Field updates *)

Definition with_brv (f : view → view) (s : state) : state :=
  {| brv := f (brv s); net := net s; ranges := ranges s |}.

Definition set_peerToRemoteClient (m : gmap positive remoteClient) (v : view) : view :=
  {| config_Debug := config_Debug v;
     readyOnce := readyOnce v; readyCh := readyCh v;
     peerToRemoteClient := m;
     outputFrames := outputFrames v; outputFramesClosed := outputFramesClosed v;
     encoder := encoder v;
     onDataHandler := onDataHandler v; onClickHandler := onClickHandler v;
     commandRegistry := commandRegistry v;
     shutdownCtx := shutdownCtx v;
     backgroundProcessing := backgroundProcessing v |}.

Definition set_encoder (e : option Enc) (v : view) : view :=
  {| config_Debug := config_Debug v;
     readyOnce := readyOnce v; readyCh := readyCh v;
     peerToRemoteClient := peerToRemoteClient v;
     outputFrames := outputFrames v; outputFramesClosed := outputFramesClosed v;
     encoder := e;
     onDataHandler := onDataHandler v; onClickHandler := onClickHandler v;
     commandRegistry := commandRegistry v;
     shutdownCtx := shutdownCtx v;
     backgroundProcessing := backgroundProcessing v |}.

Definition set_outputFrames (q : list bytes) (closed : bool) (v : view) : view :=
  {| config_Debug := config_Debug v;
     readyOnce := readyOnce v; readyCh := readyCh v;
     peerToRemoteClient := peerToRemoteClient v;
     outputFrames := q; outputFramesClosed := closed;
     encoder := encoder v;
     onDataHandler := onDataHandler v; onClickHandler := onClickHandler v;
     commandRegistry := commandRegistry v;
     shutdownCtx := shutdownCtx v;
     backgroundProcessing := backgroundProcessing v |}.

Definition set_backgroundProcessing (n : Z) (v : view) : view :=
  {| config_Debug := config_Debug v;
     readyOnce := readyOnce v; readyCh := readyCh v;
     peerToRemoteClient := peerToRemoteClient v;
     outputFrames := outputFrames v; outputFramesClosed := outputFramesClosed v;
     encoder := encoder v;
     onDataHandler := onDataHandler v; onClickHandler := onClickHandler v;
     commandRegistry := commandRegistry v;
     shutdownCtx := shutdownCtx v;
     backgroundProcessing := n |}.

Definition set_ready (once ch : bool) (v : view) : view :=
  {| config_Debug := config_Debug v;
     readyOnce := once; readyCh := ch;
     peerToRemoteClient := peerToRemoteClient v;
     outputFrames := outputFrames v; outputFramesClosed := outputFramesClosed v;
     encoder := encoder v;
     onDataHandler := onDataHandler v; onClickHandler := onClickHandler v;
     commandRegistry := commandRegistry v;
     shutdownCtx := shutdownCtx v;
     backgroundProcessing := backgroundProcessing v |}.

Definition set_handlers (onData onClick : option positive) (v : view) : view :=
  {| config_Debug := config_Debug v;
     readyOnce := readyOnce v; readyCh := readyCh v;
     peerToRemoteClient := peerToRemoteClient v;
     outputFrames := outputFrames v; outputFramesClosed := outputFramesClosed v;
     encoder := encoder v;
     onDataHandler := onData; onClickHandler := onClick;
     commandRegistry := commandRegistry v;
     shutdownCtx := shutdownCtx v;
     backgroundProcessing := backgroundProcessing v |}.

Definition set_shutdownCtx (done : bool) (v : view) : view :=
  {| config_Debug := config_Debug v;
     readyOnce := readyOnce v; readyCh := readyCh v;
     peerToRemoteClient := peerToRemoteClient v;
     outputFrames := outputFrames v; outputFramesClosed := outputFramesClosed v;
     encoder := encoder v;
     onDataHandler := onDataHandler v; onClickHandler := onClickHandler v;
     commandRegistry := commandRegistry v;
     shutdownCtx := done;
     backgroundProcessing := backgroundProcessing v |}.

(** *** Calls on the collaborators *)

Definition logger_Error (err : error) : Go unit := emit (EvLog LvlError err).
Definition logger_Debugw (msg : string) : Go unit := emit (EvLog LvlDebug msg).

Definition writeSample (track : positive) (smp : media_Sample) : Go (option error) :=
  λ s, let '(w, err) := WriteSample (net s) track smp in
       (Returns err, {| brv := brv s; net := w; ranges := ranges s |}, [EvWriteSample track smp err]).

Definition sendText (channel : positive) (msg : string) : Go (option error) :=
  λ s, let '(w, err) := DataChannel_SendText (net s) channel msg in
       (Returns err, {| brv := brv s; net := w; ranges := ranges s |}, [EvSendText channel msg err]).

Definition send (channel : positive) (payload : bytes) : Go (option error) :=
  λ s, let '(w, err) := DataChannel_Send (net s) channel payload in
       (Returns err, {| brv := brv s; net := w; ranges := ranges s |}, [EvSend channel payload err]).

(** *** The connection registry *)

Definition addRemoteClient (peerConnection : positive) (rc : remoteClient) : Go unit :=
  modify (with_brv (λ v, set_peerToRemoteClient (<[peerConnection := rc]> (peerToRemoteClient v)) v)).

Definition removeRemoteClient (peerConnection : positive) : Go unit :=
  modify (with_brv (λ v, set_peerToRemoteClient (delete peerConnection (peerToRemoteClient v)) v)).

(** [getRemoteClients] ranges over the registry once. *)
Definition after_range (s : state) : state :=
  {| brv := brv s; net := net s; ranges := S (ranges s) |}.

Definition getRemoteClients : Go (list remoteClient) :=
  λ s, (Returns (rangeMap (ranges s) (peerToRemoteClient (brv s))).*2, after_range s, []).
(** *** Channels, the wait group and the once gate *)

(** [brv.outputFrames <- encodedFrame]. *)
Definition outputFrames_send (encodedFrame : bytes) : Go unit :=
  let! v := gets brv in
  if outputFramesClosed v then panic "send on closed channel"
  else modify (with_brv (set_outputFrames (outputFrames v ++ [encodedFrame]) false)).

(** [close(brv.outputFrames)]. *)
Definition outputFrames_close : Go unit :=
  let! v := gets brv in
  if outputFramesClosed v then panic "close of closed channel"
  else modify (with_brv (set_outputFrames (outputFrames v) true)).

(** [brv.backgroundProcessing.Add(delta)]; [Done()] is [Add(-1)]. *)
Definition backgroundProcessing_Add (delta : Z) : Go unit :=
  let! v := gets brv in
  if backgroundProcessing v + delta <? 0 then panic "sync: negative WaitGroup counter"
  else modify (with_brv (set_backgroundProcessing (backgroundProcessing v + delta))).

Definition backgroundProcessing_Done : Go unit := backgroundProcessing_Add (-1).

(** [close(brv.readyCh)]: the close is what makes [Ready()] observable. *)
Definition readyCh_close : Go unit :=
  let! v := gets brv in
  if readyCh v then panic "close of closed channel"
  else (modify (with_brv (set_ready (readyOnce v) true)) ;; emit EvCloseReadyCh).

(** [brv.readyOnce.Do(f)]: [f] runs if the gate has not been passed, and
    the gate is marked as passed when [f] is over. *)
Definition readyOnce_Do (f : Go unit) : Go unit :=
  let! v := gets brv in
  if readyOnce v then ret tt
  else (f ;; modify (with_brv (λ v, set_ready true (readyCh v) v))).

(** *** The encode loop *)

Definition initCodec (width height : Z) : Go (option error) :=
  let! v := gets brv in
  match encoder v with
  | Some _ => ret (Some "already initialized codec")
  | None =>
      emit (EvFactoryNew width height) ;;
      match EncoderFactory_New width height with
      | inl err => ret (Some err)
      | inr enc => modify (with_brv (set_encoder (Some enc))) ;; ret None
      end
  end.

(** [brv.encoder.Encode(frame)]; a method call on a nil interface value
    panics. *)
Definition encoder_Encode (frame : image) : Go EncodeResult :=
  let! v := gets brv in
  match encoder v with
  | None => panic "invalid memory address or nil pointer dereference"
  | Some enc =>
      let '(enc', r) := Encoder_Encode enc frame in
      modify (with_brv (set_encoder (Some enc'))) ;;
      emit (EvEncode frame r) ;;
      ret r
  end.

(** Where a loop stands when its input is used up: it has returned, or it
    waits for the next value. *)
Inductive status : Type := Returned | Blocked.

(** The deferred function of [processInputFrames], run at each [return]. *)
Definition processInputFrames_deferred : Go status :=
  outputFrames_close ;; backgroundProcessing_Done ;; ret Returned.

(** Lines 513 to 520 of the loop body: the frame is encoded; an encoder
    error is logged, an empty output is dropped, a sample is sent to
    [brv.outputFrames]; then the loop goes on. *)
Definition encodeFrame (frame : image) : Go unit :=
  let! r := encoder_Encode frame in
  match r with
  | EncodeError err => logger_Error err
  | EncodeOutput None => ret tt
  | EncodeOutput (Some encodedFrame) => outputFrames_send encodedFrame
  end.

(** The loop of [processInputFrames] over the values received from
    [brv.inputFrames], a nil image being [None].  The loop leaves when it
    finds the context cancelled.  When the values are used up and the context
    is not cancelled the loop waits in its second [select]. *)
Fixpoint processInputFrames_loop (inputFrames : list (option image)) (firstFrame : bool)
  : Go status :=
  let! v := gets brv in
  if shutdownCtx v then processInputFrames_deferred
  else
    match inputFrames with
    | [] => ret Blocked
    | None :: rest => processInputFrames_loop rest firstFrame
    | Some frame :: rest =>
        let! initErr :=
          (if firstFrame
           then initCodec (Dx (Bounds frame)) (Dy (Bounds frame))
           else ret None) in
        match initErr with
        | Some err => logger_Error err ;; processInputFrames_deferred
        | None => encodeFrame frame ;; processInputFrames_loop rest false
        end
    end.

Definition processInputFrames (inputFrames : list (option image)) : Go status :=
  processInputFrames_loop inputFrames true.

(** *** The fan-out loop *)

(** The inner loop of [processOutputFrames]: one [WriteSample] per client,
    the first failure panics. *)
Fixpoint writeToClients (clients : list remoteClient) (outputFrame : bytes) : Go unit :=
  match clients with
  | [] => ret tt
  | rc :: rest =>
      let! ivfErr :=
        writeSample (videoTrack rc)
          {| Data := outputFrame; Duration := 33 * Millisecond |} in
      match ivfErr with
      | Some err => panic err
      | None => writeToClients rest outputFrame
      end
  end.

(** The loop of [processOutputFrames] over the samples waiting in
    [brv.outputFrames]; each round receives one.  The [framesSent] counter
    is only logged and is left out of the log text. *)
Fixpoint processOutputFrames_loop (pending : list bytes) : Go status :=
  match pending with
  | [] =>
      let! v := gets brv in
      if outputFramesClosed v then (backgroundProcessing_Done ;; ret Returned)
      else ret Blocked
  | outputFrame :: rest =>
      modify (with_brv (λ v, set_outputFrames (tail (outputFrames v)) (outputFramesClosed v) v)) ;;
      let! v := gets brv in
      if shutdownCtx v then (backgroundProcessing_Done ;; ret Returned)
      else
        let! clients := getRemoteClients in
        writeToClients clients outputFrame ;;
        (if config_Debug v then logger_Debugw "wrote sample" else ret tt) ;;
        processOutputFrames_loop rest
  end.

Definition processOutputFrames : Go status :=
  let! v := gets brv in
  processOutputFrames_loop (outputFrames v).

(** The pipeline on the images pushed so far: the two loops talk through
    [brv.outputFrames] only, so the encode loop is run first and the
    fan-out loop after it. *)
Definition pipeline (inputFrames : list (option image)) : Go (status * status) :=
  let! enc := processInputFrames inputFrames in
  let! out := processOutputFrames in
  ret (enc, out).
(** *** The connection goroutine of [Handler] *)

(** Lines 336 to 343: the connection is registered, and the first
    goroutine to come here closes [readyCh] and starts the two loops. *)
Definition attachConnection (peerConnection : positive) (rc : remoteClient) : Go unit :=
  addRemoteClient peerConnection rc ;;
  readyOnce_Do
    (readyCh_close ;;
     backgroundProcessing_Add 2 ;;
     emit (EvGo GoProcessInputFrames) ;;
     emit (EvGo GoProcessOutputFrames)).

(** The goroutine started for an accepted offer, its
    [backgroundProcessing.Add(1)] included.  The [select] takes the case
    that is ready: [iceConnected] tells whether the ICE context is done,
    and [preferShutdown] is the choice Go makes when both cases are ready.
    When neither is, the goroutine waits. *)
Definition connectionWorker (peerConnection : positive) (rc : remoteClient)
    (iceConnected preferShutdown : bool) : Go status :=
  backgroundProcessing_Add 1 ;;
  let! v := gets brv in
  match shutdownCtx v, iceConnected with
  | true, false => backgroundProcessing_Done ;; ret Returned
  | false, true =>
      attachConnection peerConnection rc ;; backgroundProcessing_Done ;; ret Returned
  | true, true =>
      if preferShutdown then (backgroundProcessing_Done ;; ret Returned)
      else (attachConnection peerConnection rc ;; backgroundProcessing_Done ;; ret Returned)
  | false, false => ret Blocked
  end.

(** Whether the goroutine above reaches [addRemoteClient]. *)
Definition attaches (v : view) (iceConnected preferShutdown : bool) : bool :=
  iceConnected && (negb (shutdownCtx v) || negb preferShutdown).

(** *** Setters and [Stop] *)

Definition SetOnDataHandler (handler : option positive) : Go unit :=
  modify (with_brv (λ v, set_handlers handler (onClickHandler v) v)).

Definition SetOnClickHandler (handler : option positive) : Go unit :=
  modify (with_brv (λ v, set_handlers (onDataHandler v) handler v)).

(** [backgroundProcessing.Wait()] returns when the counter is at zero;
    while goroutines are alive the caller waits for them. *)
Definition backgroundProcessing_Wait : Go status :=
  let! v := gets brv in
  if backgroundProcessing v =? 0 then ret Returned else ret Blocked.

(** [Stop] cancels the context and waits for the goroutines of the view:
    it has returned, or it stands in its [Wait]. *)
Definition Stop : Go status :=
  modify (with_brv (set_shutdownCtx true)) ;; backgroundProcessing_Wait.

(** *** The callback of the data channel *)

(** [UnmarshalCommand] is defined outside the files at hand. *)
Variable UnmarshalCommand : string → error + Command.

(** [if err := dataChannel.SendText(s); err != nil { brv.logger.Error(err) }] *)
Definition sendText_logged (channel : positive) (msg : string) : Go unit :=
  let! err := sendText channel msg in
  match err with
  | Some err => logger_Error err
  | None => ret tt
  end.

Definition send_logged (channel : positive) (payload : bytes) : Go unit :=
  let! err := send channel payload in
  match err with
  | Some err => logger_Error err
  | None => ret tt
  end.

(** The block under [if brv.onDataHandler == nil]; the result tells
    whether the callback has returned ([true]) or control has left the
    block at its end ([false]). *)
Definition commandDispatch (dataChannel : positive) (msg : DataChannelMessage) : Go bool :=
  if negb (IsString msg) then ret true
  else
    match UnmarshalCommand (string_of_bytes (msg_Data msg)) with
    | inl err =>
        logger_Debugw "error unmarshaling command" ;;
        sendText_logged dataChannel err ;;
        ret true
    | inr cmd =>
        let! v := gets brv in
        match CommandRegistry_Process (commandRegistry v) cmd with
        | inl err =>
            logger_Debugw "error processing command" ;;
            sendText_logged dataChannel err ;;
            ret true
        | inr None => ret true
        | inr (Some resp) =>
            if isText resp then
              (sendText_logged dataChannel (string_of_bytes (data resp)) ;; ret true)
            else
              (send_logged dataChannel (data resp) ;; ret false)
        end
    end.

(** [brv.onDataHandler(msg.Data)]; calling a nil function value panics. *)
Definition call_onDataHandler (payload : bytes) : Go unit :=
  let! v := gets brv in
  match onDataHandler v with
  | None => panic "invalid memory address or nil pointer dereference"
  | Some handler => emit (EvOnData handler payload)
  end.

Definition dataChannel_OnMessage (dataChannel : positive) (msg : DataChannelMessage) : Go unit :=
  let! v := gets brv in
  let! returned :=
    (match onDataHandler v with
     | None => commandDispatch dataChannel msg
     | Some _ => ret false
     end) in
  if (returned : bool) then ret tt
  else call_onDataHandler (msg_Data msg).

(** *** The callback of the click channel *)

(** [strconv.ParseFloat(s, 32)], and the value [int(x)] takes for an [x]
    that no [int] represents, which Go leaves to the implementation
    ([int_unrepresentable_amd64] is what amd64 makes of it). *)
Variable strconv_ParseFloat32 : string → float64 * option error.
Variable int_unrepresentable : float64 → Z.

(** The conversion [int(x)]. *)
Definition int_of_float64 (x : float64) : Z :=
  match truncate x with
  | Some t => if (- 2 ^ 63 <=? t) && (t <? 2 ^ 63) then t else int_unrepresentable x
  | None => int_unrepresentable x
  end.

Definition clickChannel_OnMessage (msg : DataChannelMessage) : Go unit :=
  let! v := gets brv in
  match onClickHandler v with
  | None => ret tt
  | Some handler =>
      let coords := strings_Split_comma (string_of_bytes (msg_Data msg)) in
      match coords with
      | [c0; c1] =>
          match strconv_ParseFloat32 c0 with
          | (_, Some err) => panic err
          | (x, None) =>
              match strconv_ParseFloat32 c1 with
              | (_, Some err) => panic err
              | (y, None) =>
                  emit (EvOnClick handler (int_of_float64 x) (int_of_float64 y))
              end
          end
      | _ => panic "len(coords)"
      end
  end.

(** *** The operations on a view *)

(** What happens to a view, one operation at a time: the goroutine of an
    accepted offer, the ICE callback for a connection that is disconnected,
    failed or closed, the setters, a message on either data channel, and
    [Stop]. *)
Inductive viewOp : Type :=
| OpConnection (peerConnection : positive) (rc : remoteClient)
    (iceConnected preferShutdown : bool)
| OpTerminated (peerConnection : positive)
| OpSetOnDataHandler (handler : option positive)
| OpSetOnClickHandler (handler : option positive)
| OpDataMessage (dataChannel : positive) (msg : DataChannelMessage)
| OpClickMessage (msg : DataChannelMessage)
| OpStop.

Definition runOp (op : viewOp) : Go unit :=
  match op with
  | OpConnection peerConnection rc iceConnected preferShutdown =>
      connectionWorker peerConnection rc iceConnected preferShutdown ;; ret tt
  | OpTerminated peerConnection => removeRemoteClient peerConnection
  | OpSetOnDataHandler handler => SetOnDataHandler handler
  | OpSetOnClickHandler handler => SetOnClickHandler handler
  | OpDataMessage dataChannel msg => dataChannel_OnMessage dataChannel msg
  | OpClickMessage msg => clickChannel_OnMessage msg
  | OpStop => Stop ;; ret tt
  end.

(** A panic ends the program: the operations after it do not run. *)
Fixpoint runOps (ops : list viewOp) : Go unit :=
  match ops with
  | [] => ret tt
  | op :: rest => runOp op ;; runOps rest
  end.

(** The operations that can reach [addRemoteClient]. *)
Definition mayAttach (op : viewOp) : bool :=
  match op with
  | OpConnection _ _ iceConnected _ => iceConnected
  | _ => false
  end.

(** Operations to run in the examples. *)
Definition bench_ops : list viewOp :=
  [OpSetOnClickHandler (Some 7%positive);
   OpConnection 1 bench_client1 true false;
   OpConnection 2 bench_client2 true false].

(** *** Broadcasts *)

(** The loops of [SendData] and [SendText] over a snapshot: a send that
    fails is logged and the loop goes on. *)
Fixpoint sendDataTo (clients : list remoteClient) (payload : bytes) : Go unit :=
  match clients with
  | [] => ret tt
  | rc :: rest => send_logged (dataChannel rc) payload ;; sendDataTo rest payload
  end.

Fixpoint sendTextTo (clients : list remoteClient) (msg : string) : Go unit :=
  match clients with
  | [] => ret tt
  | rc :: rest => sendText_logged (dataChannel rc) msg ;; sendTextTo rest msg
  end.

Definition SendData (payload : bytes) : Go unit :=
  let! clients := getRemoteClients in
  sendDataTo clients payload.

Definition SendText (msg : string) : Go unit :=
  let! clients := getRemoteClients in
  sendTextTo clients msg.

(** *** The ICE callback of [Handler] *)

(** [webrtc.ICEConnectionState]. *)
Inductive ICEConnectionState : Type :=
| ICEConnectionStateNew
| ICEConnectionStateChecking
| ICEConnectionStateConnected
| ICEConnectionStateCompleted
| ICEConnectionStateDisconnected
| ICEConnectionStateFailed
| ICEConnectionStateClosed.

(** The callback given to [OnICEConnectionStateChange]: it logs the change,
    and then cancels the ICE context of the connection (the result is
    [true]) or removes the connection from the registry. *)
Definition onICEConnectionStateChange (peerConnection : positive)
    (connectionState : ICEConnectionState) : Go bool :=
  logger_Debugw "connection state changed" ;;
  match connectionState with
  | ICEConnectionStateConnected => ret true
  | ICEConnectionStateDisconnected
  | ICEConnectionStateFailed
  | ICEConnectionStateClosed => removeRemoteClient peerConnection ;; ret false
  | _ => ret false
  end.

(** The states on which the callback removes the connection. *)
Definition terminal (connectionState : ICEConnectionState) : bool :=
  match connectionState with
  | ICEConnectionStateDisconnected
  | ICEConnectionStateFailed
  | ICEConnectionStateClosed => true
  | _ => false
  end.

(** *** What a trace shows of the data channels and of the callbacks *)

(** The messages sent, with their channels, text and binary. *)
Definition textsSent (t : list event) : list (positive * string) :=
  omap (λ e, match e with EvSendText ch msg _ => Some (ch, msg) | _ => None end) t.

Definition dataSent (t : list event) : list (positive * bytes) :=
  omap (λ e, match e with EvSend ch payload _ => Some (ch, payload) | _ => None end) t.

(** The channels messages were sent on, of either kind, in order. *)
Definition sendChannels (t : list event) : list positive :=
  omap (λ e, match e with
             | EvSendText ch _ _ | EvSend ch _ _ => Some ch
             | _ => None
             end) t.

(** The errors of the sends that failed, and the errors logged. *)
Definition sendFailures (t : list event) : list error :=
  omap (λ e, match e with
             | EvSendText _ _ (Some err) | EvSend _ _ (Some err) => Some err
             | _ => None
             end) t.

Definition errorsLogged (t : list event) : list error :=
  omap (λ e, match e with EvLog LvlError err => Some err | _ => None end) t.

(** The errors the encoder returned. *)
Definition encodeErrors (t : list event) : list error :=
  omap (λ e, match e with EvEncode _ (EncodeError err) => Some err | _ => None end) t.

(** All the [WriteSample] calls, with their tracks. *)
Definition writes (t : list event) : list (positive * media_Sample) :=
  omap (λ e, match e with EvWriteSample track smp _ => Some (track, smp) | _ => None end) t.

(** The calls of the two callbacks the user installs. *)
Definition handlerCalls (t : list event) : list event :=
  omap (λ e, match e with EvOnData _ _ | EvOnClick _ _ _ => Some e | _ => None end) t.


(** The commas of a string. *)
Fixpoint commas (s : string) : nat :=
  match s with
  | EmptyString => 0
  | String c rest => (if Ascii.eqb c ","%char then 1 else 0) + commas rest
  end%nat.

(** *** Notions the properties are stated with *)

(** The fields the two loops of the pipeline leave alone: all but the
    encoder, the sample queue and the wait group. *)
Definition pipeline_frame (v v' : view) : Prop :=
  config_Debug v' = config_Debug v ∧
  readyOnce v' = readyOnce v ∧
  readyCh v' = readyCh v ∧
  peerToRemoteClient v' = peerToRemoteClient v ∧
  onDataHandler v' = onDataHandler v ∧
  onClickHandler v' = onClickHandler v ∧
  commandRegistry v' = commandRegistry v ∧
  shutdownCtx v' = shutdownCtx v.

(** The first non-nil image of an input. *)
Definition firstImage (inputFrames : list (option image)) : option image :=
  head (omap id inputFrames).

(** The sample [processOutputFrames] makes of an encoded frame. *)
Definition sampleOf (outputFrame : bytes) : media_Sample :=
  {| Data := outputFrame; Duration := 33 * Millisecond |}.

(** The writes of a fan-out that meets no failure, on the registry [m]:
    each sample goes to the clients in the order of the [range] its round
    runs, the first round running the [n]-th [range] of the program. *)
Fixpoint fanOutWrites (n : nat) (m : gmap positive remoteClient) (pending : list bytes)
  : list (positive * media_Sample) :=
  match pending with
  | [] => []
  | outputFrame :: rest =>
      ((λ rc, (videoTrack rc, sampleOf outputFrame)) <$> (rangeMap n m).*2) ++
      fanOutWrites (S n) m rest
  end.

(** A relation between the state before a run, the state after it and the
    trace, that every run of [m] satisfies, also a run that panics. *)
Definition preserves {St A} (I : St → St → list event → Prop) (m : M St A) : Prop :=
  ∀ s, I s (final (m s)) (trace (m s)).

(** Such a relation can be followed along a sequence when it holds of the
    empty run and composes. *)
Definition composable {St} (I : St → St → list event → Prop) : Prop :=
  (∀ s, I s s []) ∧
  (∀ s1 s2 s3 t1 t2, I s1 s2 t1 → I s2 s3 t2 → I s1 s3 (t1 ++ t2)).

(** The calls of the encode loop and those of the fan-out loop. *)
Definition encodeEvent (e : event) : Prop :=
  match e with
  | EvFactoryNew _ _ | EvEncode _ _ | EvLog _ _ => True
  | _ => False
  end.

Definition fanOutEvent (e : event) : Prop :=
  match e with
  | EvWriteSample _ _ _ | EvLog _ _ => True
  | _ => False
  end.

(** The encode loop keeps the transport and the fields outside the
    pipeline, and makes encode calls only. *)
Definition encodeRun (s s' : state) (t : list event) : Prop :=
  net s' = net s ∧ pipeline_frame (brv s) (brv s') ∧ Forall encodeEvent t.

(** The fan-out loop keeps the fields outside the pipeline and the encoder,
    and makes fan-out calls only. *)
Definition fanOutRun (s s' : state) (t : list event) : Prop :=
  pipeline_frame (brv s) (brv s') ∧ encoder (brv s') = encoder (brv s) ∧
  Forall fanOutEvent t.

(** Whether the encoder returned a sample. *)
Definition hasSample (r : EncodeResult) : bool :=
  match r with
  | EncodeOutput (Some _) => true
  | _ => false
  end.

(** What the ready gate shows when it opens: the close of [readyCh] and
    the start of the two loops. *)
Definition fired : list event :=
  [EvCloseReadyCh; EvGo GoProcessInputFrames; EvGo GoProcessOutputFrames].

(** The gate and the channel agree, and the wait group is not negative. *)
Definition readyOk (v : view) : Prop :=
  readyOnce v = readyCh v ∧ 0 <= backgroundProcessing v.

(** A run that leaves the gate alone. *)
Definition readyKept (s s' : state) (t : list event) : Prop :=
  readyOnce (brv s') = readyOnce (brv s) ∧
  readyCh (brv s') = readyCh (brv s) ∧
  (0 <= backgroundProcessing (brv s) → 0 <= backgroundProcessing (brv s')) ∧
  readyEvents t = [].

(** A run that opens the gate once at most, and not when it is open. *)
Definition readyRun (s s' : state) (t : list event) : Prop :=
  readyOk (brv s) →
  readyOk (brv s') ∧
  if readyCh (brv s)
  then readyCh (brv s') = true ∧ readyEvents t = []
  else (readyCh (brv s') = false ∧ readyEvents t = []) ∨
       (readyCh (brv s') = true ∧ readyEvents t = fired).

(** ** Properties *)

(** *** Running the monad *)

Lemma bind_ret {St A B} (a : A) (k : A → M St B) s : bind (ret a) k s = k a s.
Proof. unfold bind, ret. by destruct (k a s) as [[??]?]. Qed.

Lemma bind_gets {St A B} (f : St → A) (k : A → M St B) s :
  bind (gets f) k s = k (f s) s.
Proof. unfold bind, gets. by destruct (k (f s) s) as [[??]?]. Qed.

Lemma bind_modify {St B} (f : St → St) (k : unit → M St B) s :
  bind (modify f) k s = k tt (f s).
Proof. unfold bind, modify. by destruct (k tt (f s)) as [[??]?]. Qed.

Lemma bind_emit {St B} (e : event) (k : unit → M St B) s :
  bind (emit e) k s = after [e] (k tt s).
Proof. unfold bind, emit, after. by destruct (k tt s) as [[??]?]. Qed.

Lemma bind_panic {St A B} (v : string) (k : A → M St B) s :
  bind (panic v) k s = (Panics v, s, []).
Proof. done. Qed.

Lemma bind_assoc {St A B C} (m : M St A) (k : A → M St B) (h : B → M St C) s :
  bind (bind m k) h s = bind m (λ a, bind (k a) h) s.
Proof.
  unfold bind. destruct (m s) as [[[a|v] s1] t1]; [|done].
  destruct (k a s1) as [[[b|v] s2] t2]; [|done].
  destruct (h b s2) as [[r s3] t3]. by rewrite app_assoc.
Qed.

(** The three components of a sequence. *)
Lemma bind_run {St A B} (m : M St A) (k : A → M St B) s :
  bind m k s =
  match outcome (m s) with
  | Returns a => after (trace (m s)) (k a (final (m s)))
  | Panics v => (Panics v, final (m s), trace (m s))
  end.
Proof.
  unfold bind, after, outcome, final, trace.
  destruct (m s) as [[[a|v] s1] t1]; simpl; [|done].
  by destruct (k a s1) as [[??]?].
Qed.

Lemma after_nil {St A} (r : result A * St * list event) : after [] r = r.
Proof. by destruct r as [[??]?]. Qed.

Lemma after_after {St A} t1 t2 (r : result A * St * list event) :
  after t1 (after t2 r) = after (t1 ++ t2) r.
Proof. unfold after; simpl. by rewrite app_assoc. Qed.

Lemma outcome_after {St A} t (r : result A * St * list event) :
  outcome (after t r) = outcome r.
Proof. done. Qed.

Lemma final_after {St A} t (r : result A * St * list event) :
  final (after t r) = final r.
Proof. done. Qed.

Lemma trace_after {St A} t (r : result A * St * list event) :
  trace (after t r) = t ++ trace r.
Proof. done. Qed.

Lemma bind_writeSample {B} track smp (k : option error → Go B) s :
  bind (writeSample track smp) k s =
  after [EvWriteSample track smp (WriteSample (net s) track smp).2]
        (k (WriteSample (net s) track smp).2
           {| brv := brv s; net := (WriteSample (net s) track smp).1; ranges := ranges s |}).
Proof.
  unfold bind, writeSample, after. destruct (WriteSample _ _ _) as [w err]; simpl.
  by destruct (k err _) as [[??]?].
Qed.

Lemma bind_sendText {B} channel msg (k : option error → Go B) s :
  bind (sendText channel msg) k s =
  after [EvSendText channel msg (DataChannel_SendText (net s) channel msg).2]
        (k (DataChannel_SendText (net s) channel msg).2
           {| brv := brv s; net := (DataChannel_SendText (net s) channel msg).1; ranges := ranges s |}).
Proof.
  unfold bind, sendText, after. destruct (DataChannel_SendText _ _ _) as [w err]; simpl.
  by destruct (k err _) as [[??]?].
Qed.

Lemma bind_send {B} channel payload (k : option error → Go B) s :
  bind (send channel payload) k s =
  after [EvSend channel payload (DataChannel_Send (net s) channel payload).2]
        (k (DataChannel_Send (net s) channel payload).2
           {| brv := brv s; net := (DataChannel_Send (net s) channel payload).1; ranges := ranges s |}).
Proof.
  unfold bind, send, after. destruct (DataChannel_Send _ _ _) as [w err]; simpl.
  by destruct (k err _) as [[??]?].
Qed.

Lemma bind_logger_Error {B} err (k : unit → Go B) s :
  bind (logger_Error err) k s = after [EvLog LvlError err] (k tt s).
Proof. apply bind_emit. Qed.

Lemma bind_logger_Debugw {B} msg (k : unit → Go B) s :
  bind (logger_Debugw msg) k s = after [EvLog LvlDebug msg] (k tt s).
Proof. apply bind_emit. Qed.

(** One step of symbolic execution. *)
Ltac go_step :=
  first
    [ rewrite bind_assoc | rewrite bind_ret | rewrite bind_gets
    | rewrite bind_modify | rewrite bind_emit | rewrite bind_panic
    | rewrite bind_writeSample | rewrite bind_sendText | rewrite bind_send
    | rewrite bind_logger_Error | rewrite bind_logger_Debugw
    | rewrite outcome_after | rewrite final_after | rewrite trace_after ].

Ltac go := repeat go_step.

(** *** The encode loop *)

(** The loop, one round unfolded. *)
Lemma processInputFrames_loop_unfold inputFrames firstFrame s :
  processInputFrames_loop inputFrames firstFrame s =
  if shutdownCtx (brv s) then processInputFrames_deferred s
  else
    match inputFrames with
    | [] => (Returns Blocked, s, [])
    | None :: rest => processInputFrames_loop rest firstFrame s
    | Some frame :: rest =>
        bind (if firstFrame
              then initCodec (Dx (Bounds frame)) (Dy (Bounds frame))
              else ret None)
          (λ initErr,
             match initErr with
             | Some err => logger_Error err ;; processInputFrames_deferred
             | None => encodeFrame frame ;; processInputFrames_loop rest false
             end) s
    end.
Proof.
  destruct inputFrames as [|[frame|] rest]; simpl; go;
    by destruct (shutdownCtx (brv s)).
Qed.

(** Removing a nil image from the input changes nothing. *)
Lemma processInputFrames_loop_nil pre post firstFrame s :
  processInputFrames_loop (pre ++ None :: post) firstFrame s =
  processInputFrames_loop (pre ++ post) firstFrame s.
Proof.
  revert firstFrame s. induction pre as [|frame pre IH]; intros firstFrame s.
  - cbn [app]. rewrite (processInputFrames_loop_unfold (None :: post)).
    rewrite (processInputFrames_loop_unfold post).
    by destruct (shutdownCtx (brv s)), post.
  - cbn [app]. rewrite !(processInputFrames_loop_unfold (frame :: _)).
    destruct (shutdownCtx (brv s)); [done|].
    destruct frame as [frame|]; [|apply IH].
    rewrite !(bind_run (if firstFrame then _ else _)).
    destruct (outcome _) as [[err|]|]; [done| |done].
    f_equal. rewrite !(bind_run (encodeFrame frame)).
    destruct (outcome _); [|done]. by rewrite IH.
Qed.

Lemma pipeline_frame_refl v : pipeline_frame v v.
Proof. by repeat split. Qed.

Lemma pipeline_frame_trans v1 v2 v3 :
  pipeline_frame v1 v2 → pipeline_frame v2 v3 → pipeline_frame v1 v3.
Proof. unfold pipeline_frame. intros H1 H2. destruct_and!. repeat split; congruence. Qed.

(** The steps of the loop, run. *)
Lemma initCodec_run width height s :
  initCodec width height s =
  match encoder (brv s) with
  | Some _ => (Returns (Some "already initialized codec"), s, [])
  | None =>
      match EncoderFactory_New width height with
      | inl err => (Returns (Some err), s, [EvFactoryNew width height])
      | inr enc =>
          (Returns None, with_brv (set_encoder (Some enc)) s,
           [EvFactoryNew width height])
      end
  end.
Proof.
  unfold initCodec. go. destruct (encoder (brv s)); [done|]. go.
  by destruct (EncoderFactory_New width height).
Qed.

Lemma encoder_Encode_run frame s :
  encoder_Encode frame s =
  match encoder (brv s) with
  | None => (Panics "invalid memory address or nil pointer dereference", s, [])
  | Some enc =>
      (Returns (Encoder_Encode enc frame).2,
       with_brv (set_encoder (Some (Encoder_Encode enc frame).1)) s,
       [EvEncode frame (Encoder_Encode enc frame).2])
  end.
Proof.
  unfold encoder_Encode. go. destruct (encoder (brv s)) as [enc|]; [|done].
  by destruct (Encoder_Encode enc frame).
Qed.

Lemma outputFrames_send_run encodedFrame s :
  outputFrames_send encodedFrame s =
  if outputFramesClosed (brv s) then (Panics "send on closed channel", s, [])
  else (Returns tt,
        with_brv (set_outputFrames (outputFrames (brv s) ++ [encodedFrame]) false) s,
        []).
Proof. unfold outputFrames_send. go. by destruct (outputFramesClosed (brv s)). Qed.

Lemma backgroundProcessing_Add_run delta s :
  backgroundProcessing_Add delta s =
  if backgroundProcessing (brv s) + delta <? 0
  then (Panics "sync: negative WaitGroup counter", s, [])
  else (Returns tt,
        with_brv (set_backgroundProcessing (backgroundProcessing (brv s) + delta)) s,
        []).
Proof. unfold backgroundProcessing_Add. go. by destruct (_ <? 0). Qed.

Lemma outputFrames_close_run s :
  outputFrames_close s =
  if outputFramesClosed (brv s) then (Panics "close of closed channel", s, [])
  else (Returns tt, with_brv (set_outputFrames (outputFrames (brv s)) true) s, []).
Proof. unfold outputFrames_close. go. by destruct (outputFramesClosed (brv s)). Qed.

(** The deferred function touches the channel flag and the wait group. *)
Lemma processInputFrames_deferred_spec s :
  let r := processInputFrames_deferred s in
  trace r = [] ∧ net (final r) = net s ∧
  pipeline_frame (brv s) (brv (final r)) ∧
  outputFrames (brv (final r)) = outputFrames (brv s) ∧
  encoder (brv (final r)) = encoder (brv s).
Proof.
  unfold processInputFrames_deferred. rewrite bind_run, outputFrames_close_run.
  destruct (outputFramesClosed (brv s)); simpl.
  { by repeat split. }
  unfold backgroundProcessing_Done. rewrite bind_run, backgroundProcessing_Add_run; simpl.
  destruct (_ <? 0); simpl; by repeat split.
Qed.


(** *** Relations every run satisfies *)

Section Preserves.
Context {St : Type} (I : St → St → list event → Prop) (HI : composable I).

Lemma preserves_ret {A} (a : A) : preserves I (ret a).
Proof. intros s. apply HI. Qed.

Lemma preserves_gets {A} (f : St → A) : preserves I (gets f).
Proof. intros s. apply HI. Qed.

Lemma preserves_panic {A} v : preserves I (panic (A:=A) v).
Proof. intros s. apply HI. Qed.

Lemma preserves_bind {A B} (m : M St A) (k : A → M St B) :
  preserves I m → (∀ a, preserves I (k a)) → preserves I (bind m k).
Proof.
  intros Hm Hk s. rewrite bind_run. specialize (Hm s).
  destruct (outcome (m s)) as [a|v]; [|done].
  simpl. eapply HI; [done|]. apply Hk.
Qed.

Lemma preserves_if {A} (b : bool) (m1 m2 : M St A) :
  preserves I m1 → preserves I m2 → preserves I (if b then m1 else m2).
Proof. by destruct b. Qed.
End Preserves.

Lemma encodeRun_composable : composable encodeRun.
Proof.
  split.
  - intros s. split; [done|]. split; [apply pipeline_frame_refl|constructor].
  - intros s1 s2 s3 t1 t2 (Hn1 & Hf1 & Ht1) (Hn2 & Hf2 & Ht2).
    split; [congruence|]. split; [by eapply pipeline_frame_trans|].
    by apply Forall_app.
Qed.

Lemma fanOutRun_composable : composable fanOutRun.
Proof.
  split.
  - intros s. split; [apply pipeline_frame_refl|]. split; [done|constructor].
  - intros s1 s2 s3 t1 t2 (Hf1 & He1 & Ht1) (Hf2 & He2 & Ht2).
    split; [by eapply pipeline_frame_trans|]. split; [congruence|].
    by apply Forall_app.
Qed.

#[local] Hint Resolve encodeRun_composable fanOutRun_composable : core.

Lemma encodeRun_events s s' t :
  encodeRun s s' t →
  (∀ track, writesTo track t = []) ∧ readyEvents t = [].
Proof.
  intros (_ & _ & Ht). induction Ht as [|e t He _ [IH1 IH2]]; [done|].
  split.
  - intros track. destruct e; try done; simpl; apply IH1.
  - destruct e; try done; unfold readyEvents; rewrite filter_cons; simpl;
      by (case_decide; [|apply IH2]).
Qed.

Lemma fanOutRun_events s s' t :
  fanOutRun s s' t →
  factoryCalls t = [] ∧ encodeCalls t = [] ∧ encodedSamples t = [] ∧
  readyEvents t = [].
Proof.
  intros (_ & _ & Ht). induction Ht as [|e t He _ (IH1 & IH2 & IH3 & IH4)]; [done|].
  destruct e; try done; simpl; repeat split; try done.
  all: unfold readyEvents; rewrite filter_cons; simpl; by case_decide.
Qed.

(** *** The encode loop keeps to itself *)

Lemma encodeRun_initCodec width height : preserves encodeRun (initCodec width height).
Proof.
  intros s. rewrite initCodec_run.
  destruct (encoder (brv s)); [apply encodeRun_composable|].
  destruct (EncoderFactory_New width height); simpl;
    (split; [done|]; split; [apply pipeline_frame_refl || by repeat split|]);
    by repeat constructor.
Qed.

Lemma encodeRun_encoder_Encode frame : preserves encodeRun (encoder_Encode frame).
Proof.
  intros s. rewrite encoder_Encode_run.
  destruct (encoder (brv s)); [|apply encodeRun_composable].
  simpl. split; [done|]. split; [by repeat split|]. by repeat constructor.
Qed.

Lemma encodeRun_outputFrames_send encodedFrame :
  preserves encodeRun (outputFrames_send encodedFrame).
Proof.
  intros s. rewrite outputFrames_send_run.
  destruct (outputFramesClosed (brv s)); [apply encodeRun_composable|].
  simpl. split; [done|]. split; [by repeat split|]. constructor.
Qed.

Lemma encodeRun_logger_Error err : preserves encodeRun (logger_Error err).
Proof.
  intros s. split; [done|]. split; [apply pipeline_frame_refl|].
  by repeat constructor.
Qed.

Lemma encodeRun_deferred : preserves encodeRun processInputFrames_deferred.
Proof.
  intros s. destruct (processInputFrames_deferred_spec s) as (Ht & Hn & Hf & _).
  split; [done|]. split; [done|]. rewrite Ht. constructor.
Qed.

Lemma encodeRun_encodeFrame frame : preserves encodeRun (encodeFrame frame).
Proof.
  apply preserves_bind; [done|apply encodeRun_encoder_Encode|].
  intros [err|[encodedFrame|]].
  - apply encodeRun_logger_Error.
  - apply encodeRun_outputFrames_send.
  - by apply preserves_ret.
Qed.

Lemma encodeRun_processInputFrames_loop inputFrames firstFrame :
  preserves encodeRun (processInputFrames_loop inputFrames firstFrame).
Proof.
  revert firstFrame. induction inputFrames as [|[frame|] rest IH]; intros firstFrame; simpl.
  - apply preserves_bind; [done|by apply preserves_gets|]. intros v.
    apply preserves_if; [apply encodeRun_deferred|by apply preserves_ret].
  - apply preserves_bind; [done|by apply preserves_gets|]. intros v.
    apply preserves_if; [apply encodeRun_deferred|].
    apply preserves_bind; [done| |].
    + apply preserves_if; [apply encodeRun_initCodec|by apply preserves_ret].
    + intros [err|].
      * apply preserves_bind; [done|apply encodeRun_logger_Error|].
        intros _. apply encodeRun_deferred.
      * apply preserves_bind; [done|apply encodeRun_encodeFrame|]. intros _. apply IH.
  - apply preserves_bind; [done|by apply preserves_gets|]. intros v.
    apply preserves_if; [apply encodeRun_deferred|apply IH].
Qed.

(** *** The encoder factory and the sample queue *)

Lemma encodeFrame_run frame s :
  encodeFrame frame s =
  match encoder (brv s) with
  | None => (Panics "invalid memory address or nil pointer dereference", s, [])
  | Some enc =>
      let r := (Encoder_Encode enc frame).2 in
      let s1 := with_brv (set_encoder (Some (Encoder_Encode enc frame).1)) s in
      match r with
      | EncodeError err => (Returns tt, s1, [EvEncode frame r; EvLog LvlError err])
      | EncodeOutput None => (Returns tt, s1, [EvEncode frame r])
      | EncodeOutput (Some encodedFrame) =>
          if outputFramesClosed (brv s)
          then (Panics "send on closed channel", s1, [EvEncode frame r])
          else (Returns tt,
                with_brv (set_outputFrames (outputFrames (brv s) ++ [encodedFrame]) false) s1,
                [EvEncode frame r])
      end
  end.
Proof.
  unfold encodeFrame. rewrite bind_run, encoder_Encode_run.
  destruct (encoder (brv s)) as [enc|]; [|done]. simpl.
  destruct (Encoder_Encode enc frame) as [enc' [err|[encodedFrame|]]]; simpl; try done.
  rewrite outputFrames_send_run. simpl. by destruct (outputFramesClosed (brv s)).
Qed.

Lemma encodeFrame_factoryCalls frame s :
  factoryCalls (trace (encodeFrame frame s)) = [].
Proof.
  rewrite encodeFrame_run. destruct (encoder (brv s)) as [enc|]; [|done]. simpl.
  destruct (Encoder_Encode enc frame) as [enc' [err|[encodedFrame|]]]; simpl; try done.
  by destruct (outputFramesClosed (brv s)).
Qed.

Lemma encodeFrame_queue frame s :
  outcome (encodeFrame frame s) = Returns tt →
  outputFrames (brv (final (encodeFrame frame s))) =
  outputFrames (brv s) ++ encodedSamples (trace (encodeFrame frame s)).
Proof.
  rewrite encodeFrame_run. destruct (encoder (brv s)) as [enc|]; [|done]. simpl.
  destruct (Encoder_Encode enc frame) as [enc' [err|[encodedFrame|]]]; simpl;
    try by rewrite app_nil_r.
  by destruct (outputFramesClosed (brv s)).
Qed.

Lemma factoryCalls_app t1 t2 : factoryCalls (t1 ++ t2) = factoryCalls t1 ++ factoryCalls t2.
Proof. apply omap_app. Qed.

Lemma encodedSamples_app t1 t2 :
  encodedSamples (t1 ++ t2) = encodedSamples t1 ++ encodedSamples t2.
Proof. apply omap_app. Qed.

Lemma writesTo_app track t1 t2 :
  writesTo track (t1 ++ t2) = writesTo track t1 ++ writesTo track t2.
Proof. apply omap_app. Qed.

Lemma readyEvents_app t1 t2 : readyEvents (t1 ++ t2) = readyEvents t1 ++ readyEvents t2.
Proof. apply filter_app. Qed.

(** The factory is asked once at most: for the first non-nil image, when
    the loop is on its first frame and the view has no encoder. *)
Lemma processInputFrames_loop_factoryCalls inputFrames firstFrame s :
  factoryCalls (trace (processInputFrames_loop inputFrames firstFrame s)) =
  if shutdownCtx (brv s) then []
  else match firstImage inputFrames, encoder (brv s), firstFrame with
       | Some frame, None, true => [(Dx (Bounds frame), Dy (Bounds frame))]
       | _, _, _ => []
       end.
Proof.
  revert firstFrame s.
  induction inputFrames as [|[frame|] rest IH]; intros firstFrame s;
    rewrite processInputFrames_loop_unfold;
    (destruct (shutdownCtx (brv s)) eqn:Hs;
     [by destruct (processInputFrames_deferred_spec s) as (-> & _)|]).
  - by destruct (encoder (brv s)).
  - assert (Hrest : ∀ s',
      factoryCalls (trace (bind (encodeFrame frame)
         (λ _, processInputFrames_loop rest false) s')) = []).
    { intros s'. rewrite bind_run.
      destruct (outcome _); simpl; [|apply encodeFrame_factoryCalls].
      rewrite factoryCalls_app, encodeFrame_factoryCalls, IH.
      by repeat case_match. }
    unfold firstImage. simpl. rewrite bind_run. destruct firstFrame.
    + rewrite initCodec_run. destruct (encoder (brv s)) as [enc|].
      { simpl. go. simpl. by destruct (processInputFrames_deferred_spec s) as (-> & _). }
      destruct (EncoderFactory_New _ _) as [err|enc]; simpl.
      * go. simpl. by destruct (processInputFrames_deferred_spec s) as (-> & _).
      * by rewrite Hrest.
    + simpl. rewrite Hrest. by destruct (encoder (brv s)).
  - rewrite IH, Hs. done.
Qed.

(** When the loop does not panic, the queue has grown by the samples the
    encoder returned, in the order of the images. *)
Lemma processInputFrames_loop_queue inputFrames firstFrame s st :
  outcome (processInputFrames_loop inputFrames firstFrame s) = Returns st →
  outputFrames (brv (final (processInputFrames_loop inputFrames firstFrame s))) =
  outputFrames (brv s) ++
  encodedSamples (trace (processInputFrames_loop inputFrames firstFrame s)).
Proof.
  revert firstFrame s.
  induction inputFrames as [|[frame|] rest IH]; intros firstFrame s;
    rewrite processInputFrames_loop_unfold;
    (destruct (shutdownCtx (brv s)) eqn:Hs;
     [intros _; destruct (processInputFrames_deferred_spec s) as (-> & _ & _ & -> & _);
      by rewrite app_nil_r|]).
  - by rewrite app_nil_r.
  - assert (Hrest : ∀ s',
      let r := bind (encodeFrame frame) (λ _, processInputFrames_loop rest false) s' in
      outcome r = Returns st →
      outputFrames (brv (final r)) = outputFrames (brv s') ++ encodedSamples (trace r)).
    { intros s' r. subst r. rewrite bind_run.
      destruct (outcome (encodeFrame frame s')) as [[]|] eqn:Ho; [|done]. simpl.
      intros Hr. rewrite (IH _ _ Hr), (encodeFrame_queue _ _ Ho).
      by rewrite encodedSamples_app, app_assoc. }
    rewrite bind_run. destruct firstFrame.
    + rewrite initCodec_run. destruct (encoder (brv s)) as [enc|].
      { simpl. go. simpl. intros _.
        destruct (processInputFrames_deferred_spec s) as (-> & _ & _ & -> & _).
        by rewrite app_nil_r. }
      destruct (EncoderFactory_New _ _) as [err|enc]; simpl.
      * go. simpl. intros _.
        destruct (processInputFrames_deferred_spec s) as (-> & _ & _ & -> & _).
        by rewrite app_nil_r.
      * intros Hr. by rewrite (Hrest _ Hr).
    + simpl. intros Hr. by rewrite (Hrest _ Hr).
  - apply IH.
Qed.

(** *** The fan-out loop *)

Lemma writeToClients_cons rc rest outputFrame s :
  writeToClients (rc :: rest) outputFrame s =
  let w := WriteSample (net s) (videoTrack rc) (sampleOf outputFrame) in
  after [EvWriteSample (videoTrack rc) (sampleOf outputFrame) w.2]
    (match w.2 with
     | Some err => (Panics err, {| brv := brv s; net := w.1; ranges := ranges s |}, [])
     | None => writeToClients rest outputFrame {| brv := brv s; net := w.1; ranges := ranges s |}
     end).
Proof.
  simpl. rewrite bind_writeSample. unfold sampleOf.
  by destruct (WriteSample _ _ _) as [w [err|]].
Qed.

Lemma writeToClients_app pre post outputFrame s :
  writeToClients (pre ++ post) outputFrame s =
  bind (writeToClients pre outputFrame) (λ _, writeToClients post outputFrame) s.
Proof.
  revert s. induction pre as [|rc pre IH]; intros s.
  - simpl. by rewrite bind_ret.
  - cbn [app]. rewrite bind_run, !writeToClients_cons. simpl.
    destruct (WriteSample _ _ _) as [w [err|]]; simpl; [done|].
    rewrite IH, bind_run. destruct (outcome _); simpl; [|done].
    unfold after; simpl. by rewrite app_comm_cons.
Qed.

Lemma bind_getRemoteClients {B} (k : list remoteClient → Go B) s :
  bind getRemoteClients k s =
  k (rangeMap (ranges s) (peerToRemoteClient (brv s))).*2 (after_range s).
Proof. unfold bind, getRemoteClients. by destruct (k _ _) as [[??]?]. Qed.

Lemma fanOutRun_getRemoteClients : preserves fanOutRun getRemoteClients.
Proof. intros s. split; [apply pipeline_frame_refl|]. split; [done|]. constructor. Qed.

Lemma fanOutRun_writeToClients clients outputFrame :
  preserves fanOutRun (writeToClients clients outputFrame).
Proof.
  induction clients as [|rc rest IH]; intros s.
  - apply fanOutRun_composable.
  - rewrite writeToClients_cons. simpl.
    destruct (WriteSample _ _ _) as [w [err|]]; simpl.
    + split; [apply pipeline_frame_refl|]. split; [done|]. by repeat constructor.
    + destruct (IH {| brv := brv s; net := w; ranges := ranges s |}) as (Hf & He & Ht).
      split; [done|]. split; [done|]. by constructor.
Qed.

Lemma fanOutRun_Done : preserves fanOutRun backgroundProcessing_Done.
Proof.
  intros s. unfold backgroundProcessing_Done. rewrite backgroundProcessing_Add_run.
  destruct (_ <? 0); simpl; (split; [by repeat split|]); split; (done || constructor).
Qed.

Lemma processOutputFrames_loop_cons outputFrame rest s :
  processOutputFrames_loop (outputFrame :: rest) s =
  let s1 := with_brv (λ v, set_outputFrames (tail (outputFrames v)) (outputFramesClosed v) v) s in
  if shutdownCtx (brv s) then bind backgroundProcessing_Done (λ _, ret Returned) s1
  else
    bind (writeToClients (rangeMap (ranges s) (peerToRemoteClient (brv s))).*2 outputFrame)
      (λ _, (if config_Debug (brv s) then logger_Debugw "wrote sample" else ret tt) ;;
            processOutputFrames_loop rest) (after_range s1).
Proof.
  simpl. go. simpl. destruct (shutdownCtx (brv s)); [done|].
  by rewrite bind_getRemoteClients.
Qed.

Lemma fanOutRun_processOutputFrames_loop pending :
  preserves fanOutRun (processOutputFrames_loop pending).
Proof.
  induction pending as [|outputFrame rest IH]; simpl.
  - apply preserves_bind; [done|by apply preserves_gets|]. intros v.
    apply preserves_if; [|by apply preserves_ret].
    apply preserves_bind; [done|apply fanOutRun_Done|]. intros _. by apply preserves_ret.
  - apply preserves_bind; [done| |].
    { intros s. simpl. split; [by repeat split|]. split; [done|constructor]. }
    intros _. apply preserves_bind; [done|by apply preserves_gets|]. intros v.
    apply preserves_if.
    { apply preserves_bind; [done|apply fanOutRun_Done|]. intros _. by apply preserves_ret. }
    apply preserves_bind; [done|apply fanOutRun_getRemoteClients|]. intros clients.
    apply preserves_bind; [done|apply fanOutRun_writeToClients|]. intros _.
    apply preserves_bind; [done| |intros _; apply IH].
    apply preserves_if; [|by apply preserves_ret].
    intros s. split; [apply pipeline_frame_refl|]. split; [done|]. by repeat constructor.
Qed.

Lemma fanOutRun_processOutputFrames : preserves fanOutRun processOutputFrames.
Proof.
  apply preserves_bind; [done|by apply preserves_gets|]. intros v.
  apply fanOutRun_processOutputFrames_loop.
Qed.

(** A round that does not panic writes the sample once to each client, in
    the order of the snapshot. *)
Lemma writeToClients_writes clients outputFrame s track :
  outcome (writeToClients clients outputFrame s) = Returns tt →
  writesTo track (trace (writeToClients clients outputFrame s)) =
  (λ _, sampleOf outputFrame) <$> filter (λ rc, videoTrack rc = track) clients.
Proof.
  revert s. induction clients as [|rc rest IH]; intros s; [done|].
  rewrite writeToClients_cons. simpl.
  destruct (WriteSample _ _ _) as [w [err|]]; simpl; [done|].
  intros Hr. rewrite filter_cons. rewrite (IH _ Hr).
  by repeat case_decide.
Qed.

(** The loop writes every pending sample, in order, to a track that
    belongs to exactly one registered client. *)
Lemma processOutputFrames_loop_writes pending s st track :
  shutdownCtx (brv s) = false →
  (∀ n, length (filter (λ rc, videoTrack rc = track)
                  (rangeMap n (peerToRemoteClient (brv s))).*2) = 1%nat) →
  outcome (processOutputFrames_loop pending s) = Returns st →
  writesTo track (trace (processOutputFrames_loop pending s)) = sampleOf <$> pending.
Proof.
  revert s. induction pending as [|outputFrame rest IH]; intros s Hs Hone.
  - simpl. go. destruct (outputFramesClosed (brv s)); [|done].
    unfold backgroundProcessing_Done. rewrite bind_run, backgroundProcessing_Add_run.
    by destruct (_ <? 0).
  - rewrite processOutputFrames_loop_cons, Hs. cbv zeta. rewrite bind_run.
    set (s1 := after_range (with_brv _ s)).
    pose proof (fanOutRun_writeToClients (rangeMap (ranges s) (peerToRemoteClient (brv s))).*2
                  outputFrame s1) as (Hf & _ & _).
    destruct (outcome (writeToClients _ _ s1)) as [[]|] eqn:Ho; [|done].
    set (s2 := final _) in *.
    assert (Hs2 : shutdownCtx (brv s2) = false).
    { destruct Hf as (_&_&_&_&_&_&_&->). done. }
    assert (Hone2 : ∀ n, length (filter (λ rc, videoTrack rc = track)
                           (rangeMap n (peerToRemoteClient (brv s2))).*2) = 1%nat).
    { intros n. destruct Hf as (_&_&_&->&_). apply Hone. }
    rewrite outcome_after, trace_after, writesTo_app.
    rewrite (writeToClients_writes _ _ _ _ Ho).
    specialize (Hone (ranges s)).
    destruct (filter _ _) as [|rc [|??]]; try done. simpl.
    destruct (config_Debug (brv s)); go; intros Hr; simpl; by rewrite (IH _ Hs2 Hone2 Hr).
Qed.

Lemma filter_none {A} (P : A → Prop) `{∀ x, Decision (P x)} (l : list A) :
  Forall (λ x, ¬ P x) l → filter P l = [].
Proof.
  induction 1 as [|x l Hx _ IH]; [done|]. by rewrite filter_cons_False.
Qed.

(** A registered client whose track no other registered client shares is
    met once in a snapshot, whatever the order of the snapshot. *)
Lemma registered_once n (m : gmap positive remoteClient) peer rc :
  m !! peer = Some rc →
  (∀ peer' rc', m !! peer' = Some rc' → videoTrack rc' = videoTrack rc → peer' = peer) →
  length (filter (λ rc', videoTrack rc' = videoTrack rc) (rangeMap n m).*2) = 1%nat.
Proof.
  intros Hp Huniq.
  rewrite (rangeMap_perm n m), <- (map_to_list_delete m peer rc Hp).
  rewrite fmap_cons, filter_cons_True by done. simpl. f_equal.
  rewrite filter_none; [done|].
  apply Forall_forall. intros rc' Hin Htrack.
  apply list_elem_of_fmap in Hin as [[peer' rc''] [-> Hin]].
  apply elem_of_map_to_list in Hin. simpl in Htrack.
  apply lookup_delete_Some in Hin as [Hne Hin]. by specialize (Huniq _ _ Hin Htrack).
Qed.

Lemma encodedSamples_length t :
  length (encodedSamples t) = length (filter (λ c, hasSample c.2) (encodeCalls t)).
Proof.
  induction t as [|e t IH]; [done|].
  destruct e as [| frame [err|[d|]] | | | | | | | |]; simpl; try done;
    rewrite ?filter_cons; simpl; repeat case_decide; simpl; try done;
    by rewrite IH.
Qed.

(** The images shown to the encoder are non-nil images of the input, in
    the order of the input. *)
Lemma processInputFrames_loop_encodeCalls inputFrames firstFrame s :
  (encodeCalls (trace (processInputFrames_loop inputFrames firstFrame s))).*1
    `prefix_of` omap id inputFrames.
Proof.
  revert firstFrame s.
  induction inputFrames as [|[frame|] rest IH]; intros firstFrame s;
    rewrite processInputFrames_loop_unfold;
    (destruct (shutdownCtx (brv s)) eqn:Hs;
     [destruct (processInputFrames_deferred_spec s) as (-> & _); apply prefix_nil|]).
  - done.
  - assert (Hrest : ∀ s',
      (encodeCalls (trace (bind (encodeFrame frame)
         (λ _, processInputFrames_loop rest false) s'))).*1
        `prefix_of` frame :: omap id rest).
    { intros s'. rewrite bind_run, encodeFrame_run.
      destruct (encoder (brv s')) as [enc|]; [|apply prefix_nil]. simpl.
      destruct (Encoder_Encode enc frame) as [enc' [err|[d|]]]; simpl.
      - apply prefix_cons, IH.
      - destruct (outputFramesClosed (brv s')); simpl;
          [apply prefix_cons, prefix_nil|apply prefix_cons, IH].
      - apply prefix_cons, IH. }
    simpl. rewrite bind_run. destruct firstFrame.
    + rewrite initCodec_run. destruct (encoder (brv s)) as [enc|].
      { simpl. go. simpl.
        destruct (processInputFrames_deferred_spec s) as (-> & _). apply prefix_nil. }
      destruct (EncoderFactory_New _ _) as [err|enc]; simpl.
      * go. simpl. destruct (processInputFrames_deferred_spec s) as (-> & _).
        apply prefix_nil.
      * apply Hrest.
    + simpl. apply Hrest.
  - apply IH.
Qed.

(** *** The pipeline *)

Lemma processOutputFrames_run s :
  processOutputFrames s = processOutputFrames_loop (outputFrames (brv s)) s.
Proof. unfold processOutputFrames. by rewrite bind_gets. Qed.

Lemma pipeline_run inputFrames s :
  pipeline inputFrames s =
  match outcome (processInputFrames inputFrames s) with
  | Returns enc =>
      let s1 := final (processInputFrames inputFrames s) in
      after (trace (processInputFrames inputFrames s))
        (match outcome (processOutputFrames s1) with
         | Returns out =>
             (Returns (enc, out), final (processOutputFrames s1),
              trace (processOutputFrames s1))
         | Panics v =>
             (Panics v, final (processOutputFrames s1), trace (processOutputFrames s1))
         end)
  | Panics v =>
      (Panics v, final (processInputFrames inputFrames s),
       trace (processInputFrames inputFrames s))
  end.
Proof.
  unfold pipeline. rewrite bind_run. destruct (outcome _) as [enc|v]; [|done].
  rewrite bind_run. destruct (outcome (processOutputFrames _)) as [out|v]; [|done].
  unfold after, ret; simpl. by rewrite app_nil_r.
Qed.


(** *** The pipeline does not abort on a transport that accepts every sample *)

Lemma processInputFrames_deferred_returns s :
  outputFramesClosed (brv s) = false →
  1 <= backgroundProcessing (brv s) →
  outcome (processInputFrames_deferred s) = Returns Returned ∧
  backgroundProcessing (brv (final (processInputFrames_deferred s))) =
    backgroundProcessing (brv s) - 1.
Proof.
  intros Hc Hb. unfold processInputFrames_deferred, backgroundProcessing_Done.
  rewrite bind_run, outputFrames_close_run, Hc. simpl.
  rewrite bind_run, backgroundProcessing_Add_run. simpl.
  destruct (Z.ltb_spec (backgroundProcessing (brv s) + -1) 0); [lia|]. simpl.
  split; [done|lia].
Qed.

Lemma encodeFrame_returns frame s :
  outputFramesClosed (brv s) = false →
  is_Some (encoder (brv s)) →
  outcome (encodeFrame frame s) = Returns tt ∧
  outputFramesClosed (brv (final (encodeFrame frame s))) = false ∧
  is_Some (encoder (brv (final (encodeFrame frame s)))) ∧
  backgroundProcessing (brv (final (encodeFrame frame s))) = backgroundProcessing (brv s).
Proof.
  intros Hc [enc He]. rewrite encodeFrame_run, He, Hc. simpl.
  destruct (Encoder_Encode enc frame) as [enc' [err|[d|]]]; simpl; by eauto.
Qed.

Lemma processInputFrames_loop_returns inputFrames firstFrame s :
  outputFramesClosed (brv s) = false →
  1 <= backgroundProcessing (brv s) →
  firstFrame = true ∨ is_Some (encoder (brv s)) →
  ∃ st, outcome (processInputFrames_loop inputFrames firstFrame s) = Returns st ∧
        backgroundProcessing (brv s) - 1 <=
          backgroundProcessing (brv (final (processInputFrames_loop inputFrames firstFrame s))).
Proof.
  revert firstFrame s.
  induction inputFrames as [|[frame|] rest IH]; intros firstFrame s Hc Hb Hff;
    rewrite processInputFrames_loop_unfold;
    (destruct (shutdownCtx (brv s)) eqn:Hs;
     [destruct (processInputFrames_deferred_returns s Hc Hb) as [-> ->];
      eexists; split; [done|lia]|]).
  - eexists. split; [done|]. simpl. lia.
  - assert (Hrest : ∀ s', outputFramesClosed (brv s') = false →
      backgroundProcessing (brv s') = backgroundProcessing (brv s) →
      is_Some (encoder (brv s')) →
      ∃ st, outcome (bind (encodeFrame frame)
                       (λ _, processInputFrames_loop rest false) s') = Returns st ∧
            backgroundProcessing (brv s) - 1 <=
              backgroundProcessing (brv (final (bind (encodeFrame frame)
                (λ _, processInputFrames_loop rest false) s')))).
    { intros s' Hc' Hb' He'.
      destruct (encodeFrame_returns frame s' Hc' He') as (Ho & Hc2 & He2 & Hb2).
      rewrite bind_run, Ho. set (s2 := final _) in *.
      destruct (IH false s2 Hc2) as (st & Hst & Hle); [lia|by right|].
      exists st. rewrite outcome_after, final_after. split; [done|lia]. }
    rewrite bind_run. destruct firstFrame.
    + rewrite initCodec_run. destruct (encoder (brv s)) as [enc|] eqn:He.
      { simpl. go. simpl.
        destruct (processInputFrames_deferred_returns s Hc Hb) as [-> ->].
        eexists; split; [done|lia]. }
      destruct (EncoderFactory_New _ _) as [err|enc]; simpl.
      * go. simpl. destruct (processInputFrames_deferred_returns s Hc Hb) as [-> ->].
        eexists; split; [done|lia].
      * apply Hrest; by eauto.
    + simpl. destruct Hff as [|He]; [done|]. by apply Hrest.
  - by apply IH.
Qed.

Lemma writeToClients_returns clients outputFrame s :
  (∀ w track smp, (WriteSample w track smp).2 = None) →
  outcome (writeToClients clients outputFrame s) = Returns tt ∧
  brv (final (writeToClients clients outputFrame s)) = brv s.
Proof.
  intros Hok. revert s. induction clients as [|rc rest IH]; intros s; [done|].
  rewrite writeToClients_cons. cbv zeta. rewrite Hok. simpl.
  apply (IH {| brv := brv s; net := _; ranges := ranges s |}).
Qed.

Lemma processOutputFrames_loop_returns pending s :
  (∀ w track smp, (WriteSample w track smp).2 = None) →
  1 <= backgroundProcessing (brv s) →
  ∃ st, outcome (processOutputFrames_loop pending s) = Returns st.
Proof.
  intros Hok. revert s. induction pending as [|outputFrame rest IH]; intros s Hb.
  - simpl. go. destruct (outputFramesClosed (brv s)); [|by eexists].
    unfold backgroundProcessing_Done. rewrite bind_run, backgroundProcessing_Add_run.
    destruct (Z.ltb_spec (backgroundProcessing (brv s) + -1) 0); [lia|]. by eexists.
  - rewrite processOutputFrames_loop_cons. cbv zeta. set (s1 := with_brv _ s).
    destruct (shutdownCtx (brv s)).
    + unfold backgroundProcessing_Done. rewrite bind_run, backgroundProcessing_Add_run.
      simpl. destruct (Z.ltb_spec (backgroundProcessing (brv s) + -1) 0); [lia|].
      by eexists.
    + destruct (writeToClients_returns (rangeMap (ranges s) (peerToRemoteClient (brv s))).*2
                  outputFrame (after_range s1) Hok) as [Ho Hv].
      rewrite bind_run, Ho. set (s2 := final _) in *.
      assert (Hb2 : 1 <= backgroundProcessing (brv s2)) by (rewrite Hv; simpl; lia).
      destruct (IH s2 Hb2) as [st Hst]. exists st.
      destruct (config_Debug (brv s)); go; by rewrite ?outcome_after.
Qed.

(** On a view whose two loops the gate has started, with a transport that
    accepts every sample, the pipeline does not abort. *)
Lemma pipeline_returns inputFrames s :
  (∀ w track smp, (WriteSample w track smp).2 = None) →
  outputFramesClosed (brv s) = false →
  2 <= backgroundProcessing (brv s) →
  ∃ st, outcome (pipeline inputFrames s) = Returns st.
Proof.
  intros Hok Hc Hb. rewrite pipeline_run.
  destruct (processInputFrames_loop_returns inputFrames true s Hc) as (enc & Henc & Hle);
    [lia|by left|].
  fold (processInputFrames inputFrames s) in Henc, Hle. rewrite Henc. cbv zeta.
  set (s1 := final _) in *. rewrite processOutputFrames_run.
  destruct (processOutputFrames_loop_returns (outputFrames (brv s1)) s1 Hok) as [out Hout];
    [lia|].
  rewrite outcome_after, Hout. by eexists.
Qed.
(** When the pipeline does not abort, the [WriteSample] calls the track
    of a registered connection sees are the samples the encoder returned,
    in the order of the images. *)
Lemma pipeline_writes_when_returns inputFrames s peer rc st :
  outputFrames (brv s) = [] →
  peerToRemoteClient (brv s) !! peer = Some rc →
  (∀ peer' rc', peerToRemoteClient (brv s) !! peer' = Some rc' →
                videoTrack rc' = videoTrack rc → peer' = peer) →
  outcome (pipeline inputFrames s) = Returns st →
  let t := trace (pipeline inputFrames s) in
  writesTo (videoTrack rc) t = sampleOf <$> encodedSamples t ∧
  length (writesTo (videoTrack rc) t) =
    length (filter (λ c, hasSample c.2) (encodeCalls t)) ∧
  (encodeCalls t).*1 `prefix_of` omap id inputFrames.
Proof.
  intros Hq Hp Huniq Hr t.
  assert (Hmain : writesTo (videoTrack rc) t = sampleOf <$> encodedSamples t ∧
                  encodeCalls t =
                  encodeCalls (trace (processInputFrames inputFrames s))).
  { subst t. revert Hr. rewrite pipeline_run.
    destruct (outcome (processInputFrames inputFrames s)) as [enc|] eqn:Henc; [|done].
    cbv zeta. set (s1 := final (processInputFrames inputFrames s)).
    set (t1 := trace (processInputFrames inputFrames s)).
    pose proof (encodeRun_processInputFrames_loop inputFrames true s) as Hrun1.
    pose proof (encodeRun_events _ _ _ Hrun1) as [Hw1 _].
    destruct Hrun1 as (_ & Hf1 & _).
    pose proof (processInputFrames_loop_queue inputFrames true s enc Henc) as Hq1.
    fold (processInputFrames inputFrames s) in Hw1, Hf1, Hq1. fold t1 in Hw1, Hq1.
    fold s1 in Hf1, Hq1. rewrite Hq in Hq1. simpl in Hq1.
    pose proof (fanOutRun_processOutputFrames s1) as Hrun2.
    pose proof (fanOutRun_events _ _ _ Hrun2) as (_ & Hc2 & He2 & _).
    destruct (outcome (processOutputFrames s1)) as [out|] eqn:Hout; [|done].
    intros _. unfold after; simpl.
    rewrite writesTo_app, encodedSamples_app, Hw1, He2, app_nil_r. simpl.
    unfold encodeCalls at 1. rewrite omap_app. fold (encodeCalls t1).
    fold (encodeCalls (trace (processOutputFrames s1))). rewrite Hc2, app_nil_r.
    split; [|done].
    revert Hout. rewrite processOutputFrames_run, Hq1.
    destruct (shutdownCtx (brv s)) eqn:Hs.
    - assert (Ht1 : t1 = []).
      { subst t1. unfold processInputFrames. rewrite processInputFrames_loop_unfold, Hs.
        by destruct (processInputFrames_deferred_spec s) as (-> & _). }
      rewrite Ht1. simpl. go. destruct (outputFramesClosed (brv s1)); [|done].
      unfold backgroundProcessing_Done. rewrite bind_run, backgroundProcessing_Add_run.
      by destruct (_ <? 0).
    - intros Hout. eapply processOutputFrames_loop_writes; [| |done].
      + destruct Hf1 as (_&_&_&_&_&_&_&->). done.
      + intros n. destruct Hf1 as (_&_&_&->&_). by eapply registered_once. }
  destruct Hmain as [Hw Hc]. split; [done|]. split.
  - by rewrite Hw, length_fmap, encodedSamples_length.
  - rewrite Hc. apply processInputFrames_loop_encodeCalls.
Qed.

(** C1. For every sequence of images pushed into a view with a registered
    connection, on a transport that accepts every sample: the pipeline does
    not abort, and the [WriteSample] calls the track of that connection
    sees are the samples the encoder returned, in the order of the images.
    There are as many calls as images for which the encoder returned a
    sample; an image without output gives no call; and the images the
    encoder was shown are non-nil pushed images in the order pushed. *)
Theorem pipeline_writes_encoded_samples inputFrames s peer rc :
  outputFrames (brv s) = [] →
  outputFramesClosed (brv s) = false →
  2 <= backgroundProcessing (brv s) →
  peerToRemoteClient (brv s) !! peer = Some rc →
  (∀ peer' rc', peerToRemoteClient (brv s) !! peer' = Some rc' →
                videoTrack rc' = videoTrack rc → peer' = peer) →
  (∀ w track smp, (WriteSample w track smp).2 = None) →
  let t := trace (pipeline inputFrames s) in
  (∃ st, outcome (pipeline inputFrames s) = Returns st) ∧
  writesTo (videoTrack rc) t = sampleOf <$> encodedSamples t ∧
  length (writesTo (videoTrack rc) t) =
    length (filter (λ c, hasSample c.2) (encodeCalls t)) ∧
  (encodeCalls t).*1 `prefix_of` omap id inputFrames.
Proof.
  intros Hq Hc Hb Hp Huniq Hok t.
  destruct (pipeline_returns inputFrames s Hok Hc Hb) as [st Hst].
  split; [by exists st|].
  by apply (pipeline_writes_when_returns inputFrames s peer rc st).
Qed.

(** C2. Whatever images are pushed, the factory is asked for an encoder once
    at most, and it is asked with the extent of the first non-nil image:
    the run asks once, for that image, when the view has no encoder and is
    not shut down, and it does not ask otherwise. *)
Theorem encoder_initialized_once inputFrames s :
  let t := trace (pipeline inputFrames s) in
  factoryCalls t =
    (if shutdownCtx (brv s) then []
     else match firstImage inputFrames, encoder (brv s) with
          | Some frame, None => [(Dx (Bounds frame), Dy (Bounds frame))]
          | _, _ => []
          end) ∧
  (length (factoryCalls t) ≤ 1)%nat.
Proof.
  intros t.
  assert (Ht : factoryCalls t =
               factoryCalls (trace (processInputFrames inputFrames s))).
  { subst t. rewrite pipeline_run.
    destruct (outcome (processInputFrames inputFrames s)); [|done].
    cbv zeta. rewrite trace_after, factoryCalls_app.
    pose proof (fanOutRun_processOutputFrames (final (processInputFrames inputFrames s)))
      as Hrun2.
    apply fanOutRun_events in Hrun2 as (Hc & _).
    destruct (outcome (processOutputFrames _)); simpl; by rewrite Hc, app_nil_r. }
  rewrite Ht. unfold processInputFrames. rewrite processInputFrames_loop_factoryCalls.
  split.
  - by repeat case_match.
  - repeat case_match; simpl; lia.
Qed.

(** C10. A nil image in the input is skipped: with the nil image or
    without it the encode loop makes the same calls, leaves the same state
    and ends alike, so a nil image reaches neither the factory nor the
    encoder nor the queue, also when it comes first; the encoder is shown
    non-nil images only and is sized from the first of them. *)
Theorem nil_image_skipped pre post s :
  processInputFrames (pre ++ None :: post) s = processInputFrames (pre ++ post) s ∧
  firstImage (pre ++ None :: post) = firstImage (pre ++ post) ∧
  (encodeCalls (trace (processInputFrames (pre ++ None :: post) s))).*1
    `prefix_of` omap id (pre ++ post).
Proof.
  split; [apply processInputFrames_loop_nil|]. split.
  - unfold firstImage. by rewrite !omap_app.
  - unfold processInputFrames. rewrite processInputFrames_loop_nil.
    apply processInputFrames_loop_encodeCalls.
Qed.

(** The writes of a round depend on the transport only. *)
Lemma writeToClients_net clients outputFrame s s' :
  net s = net s' →
  outcome (writeToClients clients outputFrame s) =
    outcome (writeToClients clients outputFrame s') ∧
  trace (writeToClients clients outputFrame s) =
    trace (writeToClients clients outputFrame s') ∧
  net (final (writeToClients clients outputFrame s)) =
    net (final (writeToClients clients outputFrame s')).
Proof.
  revert s s'. induction clients as [|rc rest IH]; intros s s' Hn; [done|].
  rewrite !writeToClients_cons. cbv zeta. rewrite <- Hn.
  destruct (WriteSample _ _ _) as [w [err|]]; simpl; [done|].
  destruct (IH {| brv := brv s; net := w; ranges := ranges s |} {| brv := brv s'; net := w; ranges := ranges s' |} eq_refl)
    as (Ho & Ht & Hf).
  by rewrite Ho, Ht, Hf.
Qed.

(** C5. In the fan-out of a sample, a [WriteSample] that fails on one
    client panics: the program aborts with that error, the clients after
    it in the snapshot are not written to, nothing is logged, and the
    samples that wait behind are not sent. *)
Theorem write_failure_aborts outputFrame rest s pre rc post err :
  outputFrames (brv s) = outputFrame :: rest →
  shutdownCtx (brv s) = false →
  (rangeMap (ranges s) (peerToRemoteClient (brv s))).*2 = pre ++ rc :: post →
  outcome (writeToClients pre outputFrame s) = Returns tt →
  (WriteSample (net (final (writeToClients pre outputFrame s)))
     (videoTrack rc) (sampleOf outputFrame)).2 = Some err →
  outcome (processOutputFrames s) = Panics err ∧
  trace (processOutputFrames s) =
    trace (writeToClients pre outputFrame s) ++
    [EvWriteSample (videoTrack rc) (sampleOf outputFrame) (Some err)].
Proof.
  intros Hq Hs Hclients Hpre Hfail.
  rewrite processOutputFrames_run, Hq, processOutputFrames_loop_cons, Hs, Hclients.
  cbv zeta. set (s1 := after_range (with_brv _ s)).
  destruct (writeToClients_net pre outputFrame s s1 eq_refl) as (Ho & Ht & Hn).
  rewrite bind_run, writeToClients_app, bind_run, <- Ho, Hpre, <- Ht.
  rewrite writeToClients_cons. cbv zeta. by rewrite <- Hn, Hfail.
Qed.

(** *** The registry *)

(** C8. Removing a peer that is not registered changes nothing: the state
    of the view is the one before, no call is made, and a snapshot taken
    after it is the snapshot taken before it, an arrangement of the entries
    that were registered. *)
Theorem removeRemoteClient_absent s peer :
  peerToRemoteClient (brv s) !! peer = None →
  removeRemoteClient peer s = (Returns tt, s, []) ∧
  getRemoteClients (final (removeRemoteClient peer s)) = getRemoteClients s ∧
  ∃ clients,
    outcome (getRemoteClients (final (removeRemoteClient peer s))) = Returns clients ∧
    clients ≡ₚ (map_to_list (peerToRemoteClient (brv s))).*2.
Proof.
  intros Hp.
  assert (Hrm : removeRemoteClient peer s = (Returns tt, s, [])).
  { unfold removeRemoteClient, modify, with_brv, set_peerToRemoteClient.
    rewrite delete_id by done. by destruct s as [[] ?]. }
  rewrite Hrm. split; [done|]. split; [done|].
  eexists. split; [done|]. simpl. by rewrite rangeMap_perm.
Qed.

(** *** The callback of the data channel *)

Lemma sendText_logged_run channel msg s :
  sendText_logged channel msg s =
  let w := DataChannel_SendText (net s) channel msg in
  (Returns tt, {| brv := brv s; net := w.1; ranges := ranges s |},
   EvSendText channel msg w.2 ::
   match w.2 with Some err => [EvLog LvlError err] | None => [] end).
Proof.
  unfold sendText_logged. rewrite bind_sendText.
  by destruct (DataChannel_SendText _ _ _) as [w [err|]].
Qed.

Lemma send_logged_run channel payload s :
  send_logged channel payload s =
  let w := DataChannel_Send (net s) channel payload in
  (Returns tt, {| brv := brv s; net := w.1; ranges := ranges s |},
   EvSend channel payload w.2 ::
   match w.2 with Some err => [EvLog LvlError err] | None => [] end).
Proof.
  unfold send_logged. rewrite bind_send.
  by destruct (DataChannel_Send _ _ _) as [w [err|]].
Qed.

(** With a data handler installed the message goes to the handler, and
    nothing of the command dispatch runs. *)
Lemma dataChannel_OnMessage_handler dataChannel msg s handler :
  onDataHandler (brv s) = Some handler →
  dataChannel_OnMessage dataChannel msg s =
  (Returns tt, s, [EvOnData handler (msg_Data msg)]).
Proof.
  intros Hh. unfold dataChannel_OnMessage. rewrite bind_gets, Hh, bind_ret.
  unfold call_onDataHandler. by rewrite bind_gets, Hh.
Qed.

(** Without a data handler, a command whose response is binary: the
    response is sent, control leaves the block at its end and reaches the
    call of the handler, which is nil. *)
Lemma dataChannel_OnMessage_binary dataChannel msg s cmd payload :
  onDataHandler (brv s) = None →
  IsString msg = true →
  UnmarshalCommand (string_of_bytes (msg_Data msg)) = inr cmd →
  CommandRegistry_Process (commandRegistry (brv s)) cmd =
    inr (Some {| data := payload; isText := false |}) →
  let w := DataChannel_Send (net s) dataChannel payload in
  dataChannel_OnMessage dataChannel msg s =
  (Panics "invalid memory address or nil pointer dereference",
   {| brv := brv s; net := w.1; ranges := ranges s |},
   EvSend dataChannel payload w.2 ::
   match w.2 with Some err => [EvLog LvlError err] | None => [] end).
Proof.
  intros Hh Hstr Hcmd Hresp w.
  unfold dataChannel_OnMessage. rewrite bind_gets, Hh.
  unfold commandDispatch. rewrite Hstr. simpl. rewrite Hcmd.
  rewrite bind_assoc, bind_gets, Hresp. simpl.
  rewrite !bind_assoc, bind_run, send_logged_run. simpl.
  rewrite bind_ret. unfold call_onDataHandler. rewrite bind_gets. simpl. rewrite Hh.
  unfold after, panic; simpl. by rewrite app_nil_r.
Qed.

(** C6. Without a data handler, a text message that holds a well-formed
    command whose name is not in the registry, or whose handler returns an
    error, is answered with the text of the error on the data channel of
    the peer: the callback returns, the view is as before, and the one
    message sent is that text. *)
Theorem command_error_reply s dataChannel msg cmd err :
  onDataHandler (brv s) = None →
  IsString msg = true →
  UnmarshalCommand (string_of_bytes (msg_Data msg)) = inr cmd →
  (commandRegistry (brv s) !! cmdName cmd = None ∧ err = "no such command") ∨
  (∃ handler, commandRegistry (brv s) !! cmdName cmd = Some handler ∧
              handler cmd = inl err) →
  let r := dataChannel_OnMessage dataChannel msg s in
  let w := DataChannel_SendText (net s) dataChannel err in
  outcome r = Returns tt ∧
  brv (final r) = brv s ∧
  trace r =
    EvLog LvlDebug "error processing command" ::
    EvSendText dataChannel err w.2 ::
    match w.2 with Some sendErr => [EvLog LvlError sendErr] | None => [] end.
Proof.
  intros Hh Hstr Hcmd Herr r w.
  assert (Hproc : CommandRegistry_Process (commandRegistry (brv s)) cmd = inl err).
  { unfold CommandRegistry_Process.
    destruct Herr as [[Hnone ->]|(handler & Hsome & Hhandler)].
    - by rewrite Hnone.
    - by rewrite Hsome. }
  subst r. unfold dataChannel_OnMessage. rewrite bind_gets, Hh.
  unfold commandDispatch. rewrite Hstr. simpl. rewrite Hcmd.
  rewrite bind_assoc, bind_gets, Hproc.
  rewrite !bind_assoc, bind_logger_Debugw, bind_assoc, bind_run, sendText_logged_run.
  simpl. by rewrite app_nil_r.
Qed.

(** *** The callback of the click channel *)




(** *** The ready gate *)

Lemma readyKept_composable : composable readyKept.
Proof.
  split.
  - intros s. by repeat split.
  - intros s1 s2 s3 t1 t2 (Ho1 & Hc1 & Hb1 & Ht1) (Ho2 & Hc2 & Hb2 & Ht2).
    repeat split; [congruence|congruence|auto|].
    by rewrite readyEvents_app, Ht1, Ht2.
Qed.

Lemma readyRun_composable : composable readyRun.
Proof.
  split.
  - intros s Hok. split; [done|]. destruct (readyCh (brv s)); auto.
  - intros s1 s2 s3 t1 t2 H1 H2 Hok1.
    destruct (H1 Hok1) as [Hok2 Hr1]. destruct (H2 Hok2) as [Hok3 Hr2].
    split; [done|]. rewrite readyEvents_app.
    destruct (readyCh (brv s1)).
    + destruct Hr1 as [Hc2 ->]. rewrite Hc2 in Hr2. by destruct Hr2 as [-> ->].
    + destruct Hr1 as [[Hc2 ->]|[Hc2 ->]]; rewrite Hc2 in Hr2.
      * destruct Hr2 as [[-> ->]|[-> ->]]; auto.
      * destruct Hr2 as [-> ->]. right. by rewrite app_nil_r.
Qed.

Lemma readyKept_readyRun {A} (m : Go A) : preserves readyKept m → preserves readyRun m.
Proof.
  intros Hm s [Ho Hb]. destruct (Hm s) as (Ho' & Hc' & Hb' & Ht).
  split; [split; [congruence|auto]|].
  rewrite Hc', Ht. destruct (readyCh (brv s)); auto.
Qed.

Lemma readyEvents_single e : is_readyEvent e = false → readyEvents [e] = [].
Proof.
  intros He. unfold readyEvents. rewrite filter_cons_False; [done|].
  rewrite He. simpl. tauto.
Qed.

Lemma readyKept_emit e : is_readyEvent e = false → preserves readyKept (emit e).
Proof. intros He s. repeat split; try done. by apply readyEvents_single. Qed.

Lemma readyKept_modify (f : view → view) :
  (∀ v, readyOnce (f v) = readyOnce v ∧ readyCh (f v) = readyCh v ∧
        backgroundProcessing (f v) = backgroundProcessing v) →
  preserves readyKept (modify (with_brv f)).
Proof.
  intros Hf s. destruct (Hf (brv s)) as (Ho & Hc & Hb).
  split; [done|]. split; [done|]. split; [|done]. simpl. by rewrite Hb.
Qed.

Lemma readyKept_Add delta : preserves readyKept (backgroundProcessing_Add delta).
Proof.
  intros s. rewrite backgroundProcessing_Add_run.
  destruct (Z.ltb_spec (backgroundProcessing (brv s) + delta) 0); simpl;
    by repeat split.
Qed.

Lemma readyKept_sendText channel msg : preserves readyKept (sendText channel msg).
Proof.
  intros s. unfold sendText. destruct (DataChannel_SendText _ _ _).
  repeat split; by try apply readyEvents_single.
Qed.

Lemma readyKept_send channel payload : preserves readyKept (send channel payload).
Proof.
  intros s. unfold send. destruct (DataChannel_Send _ _ _).
  repeat split; by try apply readyEvents_single.
Qed.

Create HintDb kept.
#[local] Hint Resolve readyKept_emit readyKept_modify readyKept_Add
  readyKept_sendText readyKept_send : kept.

(** The gate is left alone by a term built from steps that leave it
    alone. *)
Ltac kept :=
  lazymatch goal with
  | |- preserves _ (bind _ _) =>
      apply (preserves_bind _ readyKept_composable); [kept | intros ?; kept]
  | |- preserves _ (ret _) => apply (preserves_ret _ readyKept_composable)
  | |- preserves _ (gets _) => apply (preserves_gets _ readyKept_composable)
  | |- preserves _ (panic _) => apply (preserves_panic _ readyKept_composable)
  | |- preserves _ (if ?b then _ else _) => destruct b; kept
  | |- preserves _ (match ?x with _ => _ end) => destruct x; kept
  | |- _ => solve [eauto with kept]
  end.

Lemma readyKept_logger_Error err : preserves readyKept (logger_Error err).
Proof. by apply readyKept_emit. Qed.

Lemma readyKept_logger_Debugw msg : preserves readyKept (logger_Debugw msg).
Proof. by apply readyKept_emit. Qed.

#[local] Hint Resolve readyKept_logger_Error readyKept_logger_Debugw : kept.

Lemma readyKept_removeRemoteClient peerConnection :
  preserves readyKept (removeRemoteClient peerConnection).
Proof. by apply readyKept_modify. Qed.

Lemma readyKept_addRemoteClient peerConnection rc :
  preserves readyKept (addRemoteClient peerConnection rc).
Proof. by apply readyKept_modify. Qed.

Lemma readyKept_SetOnDataHandler handler : preserves readyKept (SetOnDataHandler handler).
Proof. by apply readyKept_modify. Qed.

Lemma readyKept_SetOnClickHandler handler : preserves readyKept (SetOnClickHandler handler).
Proof. by apply readyKept_modify. Qed.

Lemma readyKept_Stop : preserves readyKept (Stop ;; ret tt).
Proof.
  unfold Stop, backgroundProcessing_Wait.
  apply (preserves_bind _ readyKept_composable); [|intros ?; kept].
  apply (preserves_bind _ readyKept_composable); [by apply readyKept_modify|].
  intros _. kept.
Qed.

Lemma readyKept_dataChannel_OnMessage dataChannel msg :
  preserves readyKept (dataChannel_OnMessage dataChannel msg).
Proof.
  unfold dataChannel_OnMessage, commandDispatch, call_onDataHandler,
    sendText_logged, send_logged.
  kept.
Qed.

Lemma readyKept_clickChannel_OnMessage msg :
  preserves readyKept (clickChannel_OnMessage msg).
Proof. unfold clickChannel_OnMessage. kept. Qed.

Lemma readyOnce_Do_run f s :
  readyOnce_Do f s =
  if readyOnce (brv s) then (Returns tt, s, [])
  else bind f (λ _, modify (with_brv (λ v, set_ready true (readyCh v) v))) s.
Proof. unfold readyOnce_Do. rewrite bind_gets. by destruct (readyOnce (brv s)). Qed.

Lemma readyCh_close_run s :
  readyCh_close s =
  if readyCh (brv s) then (Panics "close of closed channel", s, [])
  else (Returns tt, with_brv (set_ready (readyOnce (brv s)) true) s, [EvCloseReadyCh]).
Proof. unfold readyCh_close. rewrite bind_gets. by destruct (readyCh (brv s)). Qed.

(** Attaching a connection to a view whose gate and channel agree. *)
Lemma attachConnection_spec peerConnection rc s :
  readyOnce (brv s) = readyCh (brv s) →
  -2 <= backgroundProcessing (brv s) →
  let r := attachConnection peerConnection rc s in
  outcome r = Returns tt ∧
  readyOnce (brv (final r)) = true ∧
  readyCh (brv (final r)) = true ∧
  backgroundProcessing (brv (final r)) =
    backgroundProcessing (brv s) + (if readyCh (brv s) then 0 else 2) ∧
  peerToRemoteClient (brv (final r)) = <[peerConnection := rc]> (peerToRemoteClient (brv s)) ∧
  trace r = if readyCh (brv s) then [] else fired.
Proof.
  intros Ho Hb r. subst r. unfold attachConnection, addRemoteClient.
  rewrite bind_modify, readyOnce_Do_run. simpl. rewrite Ho.
  destruct (readyCh (brv s)) eqn:Hc; simpl.
  { repeat split; try done. lia. }
  rewrite bind_assoc, bind_run, readyCh_close_run. simpl. rewrite Hc. simpl.
  rewrite bind_assoc, bind_run, backgroundProcessing_Add_run. simpl.
  destruct (Z.ltb_spec (backgroundProcessing (brv s) + 2) 0); [lia|]. simpl.
  by repeat split.
Qed.

Lemma readyEvents_fired : readyEvents fired = fired.
Proof. done. Qed.

(** A goroutine that attaches its connection on a view at rest: it
    returns, the channel is closed after it, and it passes the gate when
    the channel was open and only then. *)
Lemma connectionWorker_attach peerConnection rc iceConnected preferShutdown s :
  readyOk (brv s) →
  attaches (brv s) iceConnected preferShutdown = true →
  let r := connectionWorker peerConnection rc iceConnected preferShutdown s in
  outcome r = Returns Returned ∧
  readyOk (brv (final r)) ∧
  readyCh (brv (final r)) = true ∧
  peerToRemoteClient (brv (final r)) !! peerConnection = Some rc ∧
  readyEvents (trace r) = if readyCh (brv s) then [] else fired.
Proof.
  intros [Ho Hb] Hatt r.
  assert (Hr : r =
    bind (attachConnection peerConnection rc)
      (λ _, backgroundProcessing_Done ;; ret Returned)
      (with_brv (set_backgroundProcessing (backgroundProcessing (brv s) + 1)) s)).
  { subst r. unfold connectionWorker.
    rewrite bind_run, backgroundProcessing_Add_run.
    destruct (Z.ltb_spec (backgroundProcessing (brv s) + 1) 0); [lia|].
    simpl. rewrite bind_gets. simpl. unfold attaches in Hatt.
    destruct (shutdownCtx (brv s)), iceConnected, preferShutdown; try done;
      by rewrite after_nil. }
  rewrite Hr. clear Hr r. set (s1 := with_brv _ s).
  destruct (attachConnection_spec peerConnection rc s1)
    as (Hout & Honce & Hch & Hcnt & Hreg & Htr); [done|simpl; lia|].
  rewrite bind_run, Hout. set (s2 := final _) in *. rewrite Htr.
  unfold backgroundProcessing_Done.
  rewrite bind_run, backgroundProcessing_Add_run, Hcnt. simpl.
  destruct (Z.ltb_spec
    (backgroundProcessing (brv s) + 1 + (if readyCh (brv s) then 0 else 2) + -1) 0).
  { destruct (readyCh (brv s)); lia. }
  simpl. rewrite app_nil_r, Hch, Hreg, lookup_insert_eq.
  split; [done|]. split.
  { unfold readyOk. simpl. rewrite Honce, Hch. split; [done|].
    destruct (readyCh (brv s)); lia. }
  split; [done|]. split; [done|]. by destruct (readyCh (brv s)).
Qed.

(** A goroutine that does not attach leaves the gate alone. *)
Lemma connectionWorker_noattach peerConnection rc iceConnected preferShutdown s :
  attaches (brv s) iceConnected preferShutdown = false →
  let r := connectionWorker peerConnection rc iceConnected preferShutdown s in
  readyKept s (final r) (trace r).
Proof.
  intros Hatt r. subst r. unfold connectionWorker.
  rewrite bind_run. pose proof (readyKept_Add 1 s) as Hadd. revert Hadd.
  rewrite backgroundProcessing_Add_run.
  destruct (_ <? 0); [done|]. simpl. set (s1 := with_brv _ s). intros Hadd.
  rewrite bind_gets. change (shutdownCtx (brv s1)) with (shutdownCtx (brv s)).
  assert (Hdone : preserves readyKept (backgroundProcessing_Done ;; ret Returned)).
  { unfold backgroundProcessing_Done. kept. }
  unfold attaches in Hatt.
  assert (Hcomp := proj2 readyKept_composable s s1).
  destruct (shutdownCtx (brv s)), iceConnected, preferShutdown; try done;
    rewrite <- (app_nil_l (trace _)); eapply Hcomp; try apply Hadd;
    try apply Hdone; apply readyKept_composable.
Qed.

Lemma readyRun_connectionWorker peerConnection rc iceConnected preferShutdown :
  preserves readyRun (connectionWorker peerConnection rc iceConnected preferShutdown).
Proof.
  intros s Hok.
  destruct (attaches (brv s) iceConnected preferShutdown) eqn:Hatt.
  - destruct (connectionWorker_attach peerConnection rc _ _ s Hok Hatt)
      as (_ & Hok' & Hch & _ & Hev).
    split; [done|]. rewrite Hch, Hev. destruct (readyCh (brv s)); auto.
  - pose proof (connectionWorker_noattach peerConnection rc _ _ s Hatt) as Hk.
    revert Hok. change (readyRun s
      (final (connectionWorker peerConnection rc iceConnected preferShutdown s))
      (trace (connectionWorker peerConnection rc iceConnected preferShutdown s))).
    destruct Hk as (Ho & Hc & Hb & Ht). intros [Ho' Hb'].
    split; [split; [congruence|auto]|]. rewrite Hc, Ht.
    destruct (readyCh (brv s)); auto.
Qed.

Lemma readyRun_runOp op : preserves readyRun (runOp op).
Proof.
  destruct op; simpl.
  - apply (preserves_bind _ readyRun_composable); [apply readyRun_connectionWorker|].
    intros _. apply (preserves_ret _ readyRun_composable).
  - apply readyKept_readyRun, readyKept_removeRemoteClient.
  - apply readyKept_readyRun, readyKept_SetOnDataHandler.
  - apply readyKept_readyRun, readyKept_SetOnClickHandler.
  - apply readyKept_readyRun, readyKept_dataChannel_OnMessage.
  - apply readyKept_readyRun, readyKept_clickChannel_OnMessage.
  - apply readyKept_readyRun, readyKept_Stop.
Qed.

Lemma readyRun_runOps ops : preserves readyRun (runOps ops).
Proof.
  induction ops as [|op rest IH]; simpl.
  - apply (preserves_ret _ readyRun_composable).
  - apply (preserves_bind _ readyRun_composable); [apply readyRun_runOp|]. by intros _.
Qed.

(** Operations that cannot attach leave the gate alone. *)
Lemma readyKept_runOps ops :
  Forall (λ op, mayAttach op = false) ops → preserves readyKept (runOps ops).
Proof.
  induction 1 as [|op rest Hop _ IH]; simpl.
  - apply (preserves_ret _ readyKept_composable).
  - apply (preserves_bind _ readyKept_composable); [|by intros _].
    destruct op; simpl in *.
    + subst. apply (preserves_bind _ readyKept_composable).
      * intros s. by apply connectionWorker_noattach.
      * intros _. apply (preserves_ret _ readyKept_composable).
    + apply readyKept_removeRemoteClient.
    + apply readyKept_SetOnDataHandler.
    + apply readyKept_SetOnClickHandler.
    + apply readyKept_dataChannel_OnMessage.
    + apply readyKept_clickChannel_OnMessage.
    + apply readyKept_Stop.
Qed.

(** The pipeline leaves the gate alone. *)
Lemma pipeline_ready inputFrames s :
  let r := pipeline inputFrames s in
  readyOnce (brv (final r)) = readyOnce (brv s) ∧
  readyCh (brv (final r)) = readyCh (brv s) ∧
  readyEvents (trace r) = [].
Proof.
  intros r. subst r. rewrite pipeline_run.
  pose proof (encodeRun_processInputFrames_loop inputFrames true s) as Hrun1.
  pose proof (encodeRun_events _ _ _ Hrun1) as [_ He1].
  destruct Hrun1 as (_ & (_ & Ho1 & Hc1 & _) & _).
  fold (processInputFrames inputFrames s) in Ho1, Hc1, He1.
  destruct (outcome (processInputFrames inputFrames s)); [|done].
  cbv zeta.
  pose proof (fanOutRun_processOutputFrames (final (processInputFrames inputFrames s)))
    as Hrun2.
  pose proof (fanOutRun_events _ _ _ Hrun2) as (_ & _ & _ & He2).
  destruct Hrun2 as ((_ & Ho2 & Hc2 & _) & _).
  rewrite final_after, trace_after, readyEvents_app, He1.
  destruct (outcome (processOutputFrames _)); simpl;
    (split; [congruence|]; split; [congruence|done]).
Qed.

(** C3. On a new view, whatever operations run: the gate opens once at
    most, and opening it is what closes [readyCh] and starts the two
    loops; it stays shut while no goroutine attaches a connection; a
    goroutine that attaches a connection leaves [readyCh] closed, opens
    the gate if it is shut and leaves it alone if it is open; the pipeline
    does not come near it. *)
Theorem ready_fires_once debug (w : W) ops :
  let s0 := {| brv := NewRemoteView debug; net := w; ranges := 0 |} in
  let r := runOps ops s0 in
  ((readyCh (brv (final r)) = false ∧ readyEvents (trace r) = []) ∨
   (readyCh (brv (final r)) = true ∧ readyEvents (trace r) = fired)) ∧
  (Forall (λ op, mayAttach op = false) ops →
   readyCh (brv (final r)) = false ∧ readyEvents (trace r) = []) ∧
  (∀ peerConnection rc iceConnected preferShutdown,
     attaches (brv (final r)) iceConnected preferShutdown = true →
     let r' := connectionWorker peerConnection rc iceConnected preferShutdown (final r) in
     outcome r' = Returns Returned ∧
     readyCh (brv (final r')) = true ∧
     readyEvents (trace r') = if readyCh (brv (final r)) then [] else fired) ∧
  (∀ inputFrames s,
     let p := pipeline inputFrames s in
     readyOnce (brv (final p)) = readyOnce (brv s) ∧
     readyCh (brv (final p)) = readyCh (brv s) ∧
     readyEvents (trace p) = []).
Proof.
  intros s0 r.
  assert (Hok0 : readyOk (brv s0)) by (split; simpl; [done|lia]).
  destruct (readyRun_runOps ops s0 Hok0) as [Hok Hrun]. fold r in Hok, Hrun.
  simpl in Hrun. split; [done|]. split; [|split].
  - intros Hops. destruct (readyKept_runOps ops Hops s0) as (_ & Hc & _ & Ht).
    by fold r in Hc, Ht.
  - intros peerConnection rc iceConnected preferShutdown Hatt r'.
    destruct (connectionWorker_attach peerConnection rc _ _ (final r) Hok Hatt)
      as (Hout & _ & Hch & _ & Hev).
    done.
  - apply pipeline_ready.
Qed.

(** ** Further properties of the view *)

(** *** The registry *)

Lemma getRemoteClients_run s :
  getRemoteClients s =
  (Returns (rangeMap (ranges s) (peerToRemoteClient (brv s))).*2, after_range s, []).
Proof. done. Qed.

Lemma snapshot_length n (m : gmap positive remoteClient) :
  length (rangeMap n m).*2 = size m.
Proof. by rewrite length_fmap, (rangeMap_perm n m), length_map_to_list. Qed.

(** X1. [addRemoteClient] registers the client under its peer, replacing
    what the peer had: the peer then looks up to the client, the other
    peers keep their entries, nothing is called, and a snapshot of the
    registry it leaves, in whatever order it comes, holds the client beside
    the entries of the other peers, so it grows by one for a new peer and
    keeps its length for a peer that was there. *)
Theorem addRemoteClient_registers s peerConnection rc n :
  let r := addRemoteClient peerConnection rc s in
  let m := peerToRemoteClient (brv s) in
  let snapshot := (rangeMap n (peerToRemoteClient (brv (final r)))).*2 in
  outcome r = Returns tt ∧ trace r = [] ∧
  peerToRemoteClient (brv (final r)) !! peerConnection = Some rc ∧
  (∀ other, other ≠ peerConnection →
            peerToRemoteClient (brv (final r)) !! other = m !! other) ∧
  snapshot ≡ₚ rc :: (map_to_list (delete peerConnection m)).*2 ∧
  length snapshot = match m !! peerConnection with
                    | Some _ => size m
                    | None => S (size m)
                    end.
Proof.
  intros r m snapshot. subst r snapshot. unfold addRemoteClient. simpl. fold m.
  split; [done|]. split; [done|]. split; [apply lookup_insert_eq|].
  split; [intros other Hne; by apply lookup_insert_ne|]. split.
  - rewrite (rangeMap_perm n (<[peerConnection:=rc]> m)).
    rewrite <- insert_delete_eq.
    rewrite map_to_list_insert by apply lookup_delete_eq. done.
  - rewrite snapshot_length. destruct (m !! peerConnection) eqn:Hp.
    + by apply map_size_insert_Some.
    + by apply map_size_insert_None.
Qed.

(** X2. Adding a peer that is not registered and removing it again gives
    back the view as it was, with no call made in between. *)
Theorem add_then_remove s peerConnection rc :
  peerToRemoteClient (brv s) !! peerConnection = None →
  bind (addRemoteClient peerConnection rc) (λ _, removeRemoteClient peerConnection) s =
  (Returns tt, s, []).
Proof.
  intros Hp. unfold addRemoteClient, removeRemoteClient.
  rewrite bind_modify. unfold modify, with_brv, set_peerToRemoteClient. simpl.
  rewrite delete_insert_id by done. by destruct s as [[] ?].
Qed.

(** X3. Removing a registered peer takes its entry and no other out of the
    registry: the peer is gone, the other peers keep their entries, and a
    snapshot before is the removed client beside a snapshot after, in
    whatever order the two come. *)
Theorem removeRemoteClient_present s peerConnection rc n n' :
  peerToRemoteClient (brv s) !! peerConnection = Some rc →
  let r := removeRemoteClient peerConnection s in
  outcome r = Returns tt ∧ trace r = [] ∧
  peerToRemoteClient (brv (final r)) !! peerConnection = None ∧
  (∀ other, other ≠ peerConnection →
            peerToRemoteClient (brv (final r)) !! other =
            peerToRemoteClient (brv s) !! other) ∧
  (rangeMap n (peerToRemoteClient (brv s))).*2 ≡ₚ
    rc :: (rangeMap n' (peerToRemoteClient (brv (final r)))).*2 ∧
  S (length (rangeMap n' (peerToRemoteClient (brv (final r)))).*2) =
    length (rangeMap n (peerToRemoteClient (brv s))).*2.
Proof.
  intros Hp r. subst r. unfold removeRemoteClient. simpl.
  split; [done|]. split; [done|]. split; [apply lookup_delete_eq|].
  split; [intros other Hne; by apply lookup_delete_ne|].
  assert (Hperm : (rangeMap n (peerToRemoteClient (brv s))).*2 ≡ₚ
    rc :: (rangeMap n' (delete peerConnection (peerToRemoteClient (brv s)))).*2).
  { rewrite !rangeMap_perm. by rewrite <- (map_to_list_delete _ _ _ Hp). }
  split; [done|]. by rewrite Hperm.
Qed.

(** *** Broadcasts *)

Lemma sendTextTo_spec clients msg s :
  let r := sendTextTo clients msg s in
  outcome r = Returns tt ∧ brv (final r) = brv s ∧
  textsSent (trace r) = (λ rc, (dataChannel rc, msg)) <$> clients ∧
  dataSent (trace r) = [] ∧
  errorsLogged (trace r) = sendFailures (trace r) ∧
  writes (trace r) = [] ∧ handlerCalls (trace r) = [].
Proof.
  revert s. induction clients as [|rc rest IH]; intros s; [done|].
  cbn [sendTextTo]. rewrite bind_run, sendText_logged_run. cbv zeta. simpl.
  destruct (IH {| brv := brv s;
                  net := (DataChannel_SendText (net s) (dataChannel rc) msg).1;
                  ranges := ranges s |})
    as (Ho & Hv & Ht & Hd & He & Hw & Hh).
  rewrite Ho, Hv. split; [done|]. split; [done|].
  destruct (DataChannel_SendText (net s) (dataChannel rc) msg).2; simpl;
    rewrite Ht, Hd, He, Hw, Hh; done.
Qed.

Lemma sendDataTo_spec clients payload s :
  let r := sendDataTo clients payload s in
  outcome r = Returns tt ∧ brv (final r) = brv s ∧
  dataSent (trace r) = (λ rc, (dataChannel rc, payload)) <$> clients ∧
  textsSent (trace r) = [] ∧
  errorsLogged (trace r) = sendFailures (trace r) ∧
  writes (trace r) = [] ∧ handlerCalls (trace r) = [].
Proof.
  revert s. induction clients as [|rc rest IH]; intros s; [done|].
  cbn [sendDataTo]. rewrite bind_run, send_logged_run. cbv zeta. simpl.
  destruct (IH {| brv := brv s;
                  net := (DataChannel_Send (net s) (dataChannel rc) payload).1;
                  ranges := ranges s |})
    as (Ho & Hv & Ht & Hd & He & Hw & Hh).
  rewrite Ho, Hv. split; [done|]. split; [done|].
  destruct (DataChannel_Send (net s) (dataChannel rc) payload).2; simpl;
    rewrite Ht, Hd, He, Hw, Hh; done.
Qed.

(** X4. [SendText] and [SendData] reach every registered client once and
    are stopped by no failure: whatever the sends return, the broadcast
    returns, the view is as before, the messages sent are the message on
    the data channel of each client of the snapshot, in its order (none at
    all for an empty registry), and the errors logged are the errors of the
    sends that failed. *)
Theorem broadcast_reaches_every_client s msg payload :
  let clients := (rangeMap (ranges s) (peerToRemoteClient (brv s))).*2 in
  let rt := SendText msg s in
  let rd := SendData payload s in
  (outcome rt = Returns tt ∧ brv (final rt) = brv s ∧
   textsSent (trace rt) = (λ rc, (dataChannel rc, msg)) <$> clients ∧
   dataSent (trace rt) = [] ∧
   errorsLogged (trace rt) = sendFailures (trace rt)) ∧
  (outcome rd = Returns tt ∧ brv (final rd) = brv s ∧
   dataSent (trace rd) = (λ rc, (dataChannel rc, payload)) <$> clients ∧
   textsSent (trace rd) = [] ∧
   errorsLogged (trace rd) = sendFailures (trace rd)) ∧
  length (textsSent (trace rt)) = size (peerToRemoteClient (brv s)) ∧
  length (dataSent (trace rd)) = size (peerToRemoteClient (brv s)).
Proof.
  intros clients rt rd. subst rt rd. unfold SendText, SendData.
  rewrite !bind_getRemoteClients. fold clients.
  destruct (sendTextTo_spec clients msg (after_range s)) as (Ho & Hv & Ht & Hd & He & _).
  destruct (sendDataTo_spec clients payload (after_range s))
    as (Ho' & Hv' & Hd' & Ht' & He' & _).
  split; [done|]. split; [done|].
  rewrite Ht, Hd', !length_fmap. subst clients. by rewrite !length_fmap, !rangeMap_perm,
    !length_map_to_list.
Qed.

(** *** The fan-out loop *)

Lemma writes_app t1 t2 : writes (t1 ++ t2) = writes t1 ++ writes t2.
Proof. apply omap_app. Qed.

Lemma writes_log lvl msg t : writes (EvLog lvl msg :: t) = writes t.
Proof. done. Qed.

Lemma writeToClients_all clients outputFrame s :
  (∀ w track smp, (WriteSample w track smp).2 = None) →
  writes (trace (writeToClients clients outputFrame s)) =
  (λ rc, (videoTrack rc, sampleOf outputFrame)) <$> clients.
Proof.
  intros Hok. revert s. induction clients as [|rc rest IH]; intros s; [done|].
  rewrite writeToClients_cons. cbv zeta. rewrite Hok. simpl. by rewrite IH.
Qed.

Lemma writeToClients_ranges clients outputFrame s :
  ranges (final (writeToClients clients outputFrame s)) = ranges s.
Proof.
  revert s. induction clients as [|rc rest IH]; intros s; [done|].
  rewrite writeToClients_cons. cbv zeta.
  destruct (WriteSample _ _ _) as [w [err|]]; simpl; [done|]. by rewrite IH.
Qed.

Lemma processOutputFrames_loop_all pending s :
  (∀ w track smp, (WriteSample w track smp).2 = None) →
  shutdownCtx (brv s) = false →
  1 <= backgroundProcessing (brv s) →
  outputFrames (brv s) = pending →
  let r := processOutputFrames_loop pending s in
  writes (trace r) = fanOutWrites (ranges s) (peerToRemoteClient (brv s)) pending ∧
  outputFrames (brv (final r)) = [] ∧
  outcome r = Returns (if outputFramesClosed (brv s) then Returned else Blocked) ∧
  peerToRemoteClient (brv (final r)) = peerToRemoteClient (brv s) ∧
  ranges (final r) = (ranges s + length pending)%nat.
Proof.
  intros Hok. revert s.
  induction pending as [|outputFrame rest IH]; intros s Hs Hb Hq; cbv zeta.
  - simpl. go. destruct (outputFramesClosed (brv s)); [|by rewrite Nat.add_0_r].
    unfold backgroundProcessing_Done. rewrite bind_run, backgroundProcessing_Add_run.
    destruct (Z.ltb_spec (backgroundProcessing (brv s) + -1) 0); [lia|].
    simpl. by rewrite Nat.add_0_r.
  - rewrite processOutputFrames_loop_cons, Hs. cbv zeta.
    set (s1 := after_range (with_brv _ s)).
    destruct (writeToClients_returns (rangeMap (ranges s) (peerToRemoteClient (brv s))).*2
                outputFrame s1 Hok) as [Ho Hv].
    pose proof (writeToClients_all (rangeMap (ranges s) (peerToRemoteClient (brv s))).*2
                  outputFrame s1 Hok) as Hw.
    pose proof (writeToClients_ranges (rangeMap (ranges s) (peerToRemoteClient (brv s))).*2
                  outputFrame s1) as Hn.
    rewrite bind_run, Ho. set (s2 := final _) in *.
    assert (Hs2 : shutdownCtx (brv s2) = false) by (by rewrite Hv).
    assert (Hb2 : 1 <= backgroundProcessing (brv s2)) by (rewrite Hv; simpl; lia).
    assert (Hq2 : outputFrames (brv s2) = rest) by (rewrite Hv; simpl; by rewrite Hq).
    destruct (IH s2 Hs2 Hb2 Hq2) as (Hw' & Hq' & Ho' & Hm' & Hn'). cbv zeta in Hw'.
    assert (Hm2 : peerToRemoteClient (brv s2) = peerToRemoteClient (brv s))
      by (by rewrite Hv).
    assert (Hc2 : outputFramesClosed (brv s2) = outputFramesClosed (brv s))
      by (by rewrite Hv).
    assert (Hn2 : ranges s2 = S (ranges s)) by (by rewrite Hn).
    rewrite Hm2, Hn2 in Hw'. rewrite Hm2 in Hm'. rewrite Hc2 in Ho'. rewrite Hn2 in Hn'.
    destruct (config_Debug (brv s)); go; simpl;
      rewrite writes_app, ?writes_log, Hw, Hw', Hq', Ho', Hm', Hn';
      (repeat split; try done; lia).
Qed.

(** Whatever the orders, the samples of the writes are each sample as many
    times as there are clients, in the order queued. *)
Lemma fanOutWrites_samples n m pending :
  (fanOutWrites n m pending).*2 =
  pending ≫= (λ outputFrame, replicate (size m) (sampleOf outputFrame)).
Proof.
  revert n. induction pending as [|outputFrame rest IH]; intros n; [done|].
  cbn [fanOutWrites]. rewrite fmap_app, IH, bind_cons. f_equal.
  rewrite <- (snapshot_length n m).
  generalize ((rangeMap n m).*2). intros l. induction l as [|rc l IHl]; [done|].
  simpl. by rewrite <- IHl.
Qed.

Lemma fanOutWrites_length n m pending :
  length (fanOutWrites n m pending) = (length pending * size m)%nat.
Proof.
  revert n. induction pending as [|outputFrame rest IH]; intros n; [done|].
  simpl. by rewrite length_app, length_fmap, snapshot_length, IH.
Qed.

(** X5. On a view that is not shut down, with a transport that accepts
    every sample, the fan-out loop empties the queue and writes every
    sample once to every registered client: sample after sample in the
    order queued, and for each sample client after client in the order of
    the snapshot taken for that sample, which may differ from one sample to
    the next.  With no client registered the samples are taken and
    dropped.  The loop then waits, or returns if the queue was closed. *)
Theorem processOutputFrames_writes_all s :
  (∀ w track smp, (WriteSample w track smp).2 = None) →
  shutdownCtx (brv s) = false →
  1 <= backgroundProcessing (brv s) →
  let m := peerToRemoteClient (brv s) in
  let r := processOutputFrames s in
  writes (trace r) = fanOutWrites (ranges s) m (outputFrames (brv s)) ∧
  (writes (trace r)).*2 =
    outputFrames (brv s) ≫= (λ outputFrame, replicate (size m) (sampleOf outputFrame)) ∧
  length (writes (trace r)) = (length (outputFrames (brv s)) * size m)%nat ∧
  ranges (final r) = (ranges s + length (outputFrames (brv s)))%nat ∧
  outputFrames (brv (final r)) = [] ∧
  outcome r = Returns (if outputFramesClosed (brv s) then Returned else Blocked).
Proof.
  intros Hok Hs Hb m r. subst r. rewrite processOutputFrames_run.
  destruct (processOutputFrames_loop_all (outputFrames (brv s)) s Hok Hs Hb eq_refl)
    as (Hw & Hq & Ho & _ & Hn).
  fold m in Hw. rewrite Hw. split; [done|].
  split; [apply fanOutWrites_samples|]. split; [apply fanOutWrites_length|]. done.
Qed.

(** X6. On a view that is shut down the fan-out loop writes nothing: it
    takes one sample off the queue, finds the context cancelled, marks
    itself done on the wait group and returns, leaving the other samples
    in the queue. *)
Theorem processOutputFrames_shutdown s outputFrame rest :
  shutdownCtx (brv s) = true →
  1 <= backgroundProcessing (brv s) →
  outputFrames (brv s) = outputFrame :: rest →
  let r := processOutputFrames s in
  outcome r = Returns Returned ∧ trace r = [] ∧
  outputFrames (brv (final r)) = rest ∧
  backgroundProcessing (brv (final r)) = backgroundProcessing (brv s) - 1 ∧
  net (final r) = net s.
Proof.
  intros Hs Hb Hq r. subst r.
  rewrite processOutputFrames_run, Hq, processOutputFrames_loop_cons, Hs. cbv zeta.
  unfold backgroundProcessing_Done. rewrite bind_run, backgroundProcessing_Add_run.
  simpl. destruct (Z.ltb_spec (backgroundProcessing (brv s) + -1) 0); [lia|].
  simpl. rewrite Hq. repeat split; done.
Qed.

(** *** The encode loop *)

Lemma processInputFrames_deferred_run s :
  outputFramesClosed (brv s) = false →
  1 <= backgroundProcessing (brv s) →
  processInputFrames_deferred s =
  (Returns Returned,
   with_brv (set_backgroundProcessing (backgroundProcessing (brv s) - 1))
     (with_brv (set_outputFrames (outputFrames (brv s)) true) s),
   []).
Proof.
  intros Hc Hb. unfold processInputFrames_deferred, backgroundProcessing_Done.
  rewrite bind_run, outputFrames_close_run, Hc. simpl.
  rewrite bind_run, backgroundProcessing_Add_run. simpl.
  destruct (Z.ltb_spec (backgroundProcessing (brv s) + -1) 0); [lia|]. done.
Qed.

(** X7. When the factory refuses the encoder for the first non-nil image,
    the encode loop is over: the error is logged, the sample queue is
    closed, the loop marks itself done and returns, and no image, neither
    that one nor a later one, is shown to an encoder. *)
Theorem factory_failure_stops_encoding inputFrames s frame err :
  encoder (brv s) = None →
  shutdownCtx (brv s) = false →
  outputFramesClosed (brv s) = false →
  1 <= backgroundProcessing (brv s) →
  firstImage inputFrames = Some frame →
  EncoderFactory_New (Dx (Bounds frame)) (Dy (Bounds frame)) = inl err →
  let r := processInputFrames inputFrames s in
  outcome r = Returns Returned ∧
  trace r = [EvFactoryNew (Dx (Bounds frame)) (Dy (Bounds frame)); EvLog LvlError err] ∧
  encodeCalls (trace r) = [] ∧
  encoder (brv (final r)) = None ∧
  outputFramesClosed (brv (final r)) = true ∧
  outputFrames (brv (final r)) = outputFrames (brv s) ∧
  backgroundProcessing (brv (final r)) = backgroundProcessing (brv s) - 1.
Proof.
  intros He Hs Hc Hb Hfirst Hnew r. subst r. unfold processInputFrames.
  induction inputFrames as [|[frame'|] rest IH].
  - done.
  - unfold firstImage in Hfirst. simpl in Hfirst. injection Hfirst as ->.
    rewrite processInputFrames_loop_unfold, Hs, bind_run, initCodec_run, He, Hnew.
    simpl. rewrite bind_logger_Error, processInputFrames_deferred_run by done.
    simpl. by rewrite He.
  - rewrite processInputFrames_loop_unfold, Hs. by apply IH.
Qed.

Lemma encodeCalls_app t1 t2 : encodeCalls (t1 ++ t2) = encodeCalls t1 ++ encodeCalls t2.
Proof. apply omap_app. Qed.

Lemma errorsLogged_app t1 t2 : errorsLogged (t1 ++ t2) = errorsLogged t1 ++ errorsLogged t2.
Proof. apply omap_app. Qed.

Lemma encodeErrors_app t1 t2 : encodeErrors (t1 ++ t2) = encodeErrors t1 ++ encodeErrors t2.
Proof. apply omap_app. Qed.

(** Past its first frame, with an encoder and an open queue, the loop
    shows every non-nil image to the encoder. *)
Lemma processInputFrames_loop_encodes_all inputFrames s :
  is_Some (encoder (brv s)) →
  shutdownCtx (brv s) = false →
  outputFramesClosed (brv s) = false →
  let r := processInputFrames_loop inputFrames false s in
  outcome r = Returns Blocked ∧
  (encodeCalls (trace r)).*1 = omap id inputFrames ∧
  errorsLogged (trace r) = encodeErrors (trace r) ∧
  factoryCalls (trace r) = [].
Proof.
  revert s. induction inputFrames as [|[frame|] rest IH]; intros s He Hs Hc; cbv zeta;
    rewrite processInputFrames_loop_unfold, Hs.
  - done.
  - rewrite bind_ret, bind_run.
    destruct (encodeFrame_returns frame s Hc He) as (Ho & Hc2 & He2 & _).
    pose proof (encodeRun_encodeFrame frame s) as (_ & Hf & _).
    rewrite Ho. set (s2 := final _) in *.
    assert (Hs2 : shutdownCtx (brv s2) = false).
    { destruct Hf as (_&_&_&_&_&_&_&->). done. }
    destruct (IH s2 He2 Hs2 Hc2) as (Ho' & Hcalls & Hlog & Hfac).
    rewrite outcome_after, trace_after, encodeCalls_app, errorsLogged_app,
      encodeErrors_app, factoryCalls_app, fmap_app, Ho', Hcalls, Hlog, Hfac.
    rewrite encodeFrame_factoryCalls.
    assert (Hone : (encodeCalls (trace (encodeFrame frame s))).*1 = [frame] ∧
                   errorsLogged (trace (encodeFrame frame s)) =
                   encodeErrors (trace (encodeFrame frame s))).
    { rewrite encodeFrame_run. destruct He as [enc ->]. simpl.
      destruct (Encoder_Encode enc frame) as [enc' [err|[d|]]]; simpl; [done| |done].
      by rewrite Hc. }
    destruct Hone as [-> ->]. done.
  - by apply IH.
Qed.

(** X8. On a view with no encoder, not shut down, with an open queue and a
    factory that accepts the first non-nil image, the encode loop shows every
    non-nil image to the encoder, once, in the order pushed: an encoder error
    on one image is logged and the loop goes on with the next.  The errors
    logged are the errors the encoder returned, the queue grows by the
    samples it returned, and the loop then waits for the next image. *)
Theorem every_image_reaches_encoder inputFrames s :
  encoder (brv s) = None →
  shutdownCtx (brv s) = false →
  outputFramesClosed (brv s) = false →
  (∀ frame, firstImage inputFrames = Some frame →
            ∃ enc, EncoderFactory_New (Dx (Bounds frame)) (Dy (Bounds frame)) = inr enc) →
  let r := processInputFrames inputFrames s in
  outcome r = Returns Blocked ∧
  (encodeCalls (trace r)).*1 = omap id inputFrames ∧
  errorsLogged (trace r) = encodeErrors (trace r) ∧
  outputFrames (brv (final r)) = outputFrames (brv s) ++ encodedSamples (trace r).
Proof.
  intros He Hs Hc Hnew r.
  assert (Hmain : outcome r = Returns Blocked ∧
                  (encodeCalls (trace r)).*1 = omap id inputFrames ∧
                  errorsLogged (trace r) = encodeErrors (trace r)).
  { subst r. unfold processInputFrames. clear -He Hs Hc Hnew.
    induction inputFrames as [|[frame|] rest IH].
    - by rewrite processInputFrames_loop_unfold, Hs.
    - destruct (Hnew frame eq_refl) as [enc Henc].
      rewrite processInputFrames_loop_unfold, Hs, bind_run, initCodec_run, He, Henc.
      simpl. set (s1 := with_brv _ s).
      assert (Hun : bind (encodeFrame frame) (λ _, processInputFrames_loop rest false) s1 =
                    processInputFrames_loop (Some frame :: rest) false s1).
      { rewrite (processInputFrames_loop_unfold (Some frame :: rest)).
        change (shutdownCtx (brv s1)) with (shutdownCtx (brv s)).
        by rewrite Hs, bind_ret. }
      rewrite Hun.
      destruct (processInputFrames_loop_encodes_all (Some frame :: rest) s1)
        as (Ho & Hcalls & Hlog & _); [by eexists|done|done|].
      by rewrite Ho, Hcalls, Hlog.
    - rewrite processInputFrames_loop_unfold, Hs. apply IH.
      intros frame Hf. by apply Hnew. }
  destruct Hmain as (Ho & Hcalls & Hlog). split; [done|]. split; [done|]. split; [done|].
  by apply (processInputFrames_loop_queue inputFrames true s Blocked).
Qed.

Lemma Stop_run s :
  Stop s =
  (Returns (if backgroundProcessing (brv s) =? 0 then Returned else Blocked),
   with_brv (set_shutdownCtx true) s, []).
Proof.
  unfold Stop, backgroundProcessing_Wait. rewrite bind_modify, bind_gets. simpl.
  by destruct (backgroundProcessing (brv s) =? 0).
Qed.

Lemma bind_Stop {B} (k : status → Go B) s :
  bind Stop k s =
  k (if backgroundProcessing (brv s) =? 0 then Returned else Blocked)
    (with_brv (set_shutdownCtx true) s).
Proof. unfold bind. rewrite Stop_run. by destruct (k _ _) as [[??]?]. Qed.

(** X9. Once the view is stopped the pipeline is over: the encode loop
    finds the context cancelled, closes the sample queue and returns, and
    the fan-out loop returns after it; no image is encoded and no sample is
    written, whatever is pushed or still queued, and the wait group is
    lower by the two loops. *)
Theorem Stop_ends_pipeline inputFrames s :
  outputFramesClosed (brv s) = false →
  2 <= backgroundProcessing (brv s) →
  let r := bind Stop (λ _, pipeline inputFrames) s in
  outcome r = Returns (Returned, Returned) ∧
  trace r = [] ∧
  shutdownCtx (brv (final r)) = true ∧
  outputFramesClosed (brv (final r)) = true ∧
  outputFrames (brv (final r)) = tail (outputFrames (brv s)) ∧
  encoder (brv (final r)) = encoder (brv s) ∧
  backgroundProcessing (brv (final r)) = backgroundProcessing (brv s) - 2 ∧
  net (final r) = net s.
Proof.
  intros Hc Hb r. subst r. rewrite bind_Stop. set (s1 := with_brv _ s).
  rewrite pipeline_run. unfold processInputFrames.
  rewrite processInputFrames_loop_unfold.
  change (shutdownCtx (brv s1)) with true. cbv iota.
  rewrite processInputFrames_deferred_run by (simpl; (done || lia)).
  cbv zeta. simpl. rewrite processOutputFrames_run. simpl.
  destruct (outputFrames (brv s)) as [|outputFrame rest] eqn:Hq.
  - simpl. go. simpl. unfold backgroundProcessing_Done.
    rewrite bind_run, backgroundProcessing_Add_run. simpl.
    destruct (Z.ltb_spec (backgroundProcessing (brv s) - 1 + -1) 0); [lia|].
    simpl. repeat split; try done. lia.
  - rewrite processOutputFrames_loop_cons. simpl. unfold backgroundProcessing_Done.
    rewrite bind_run, backgroundProcessing_Add_run. simpl.
    destruct (Z.ltb_spec (backgroundProcessing (brv s) - 1 + -1) 0); [lia|].
    simpl. repeat split; try done. lia.
Qed.

(** *** The callback of the data channel *)

(** The callback, path by path. *)
Ltac dataChannel_paths s msg dataChannel :=
  unfold dataChannel_OnMessage, commandDispatch, call_onDataHandler;
  rewrite ?bind_gets;
  destruct (onDataHandler (brv s)) as [handler0|] eqn:Hhandler;
  [rewrite ?bind_ret, ?bind_gets, ?Hhandler
  |destruct (IsString msg) eqn:Hstr; simpl;
   [destruct (UnmarshalCommand (string_of_bytes (msg_Data msg))) as [uerr0|cmd0] eqn:Hcmd;
    [rewrite !bind_assoc, bind_logger_Debugw, bind_assoc, bind_run, sendText_logged_run;
     simpl; rewrite ?bind_ret
    |rewrite bind_assoc, bind_gets;
     destruct (CommandRegistry_Process (commandRegistry (brv s)) cmd0)
       as [perr0|[[payload0 [|]]|]] eqn:Hproc; simpl;
     [rewrite !bind_assoc, bind_logger_Debugw, bind_assoc, bind_run, sendText_logged_run;
      simpl; rewrite ?bind_ret
     |rewrite !bind_assoc, bind_run, sendText_logged_run; simpl; rewrite ?bind_ret
     |rewrite !bind_assoc, bind_run, send_logged_run; simpl;
      rewrite ?bind_ret, ?bind_gets; simpl; rewrite ?Hhandler
     |rewrite ?bind_ret]]
   |rewrite ?bind_ret]].

(** X10. A message on the data channel of a peer is answered on that
    channel or not at all: whatever the message, the handler and the
    commands, the callback leaves the view as it is, sends one message at
    most, sends it on the channel the message came on, calls the data
    handler once at most, and writes to no track. *)
Theorem dataChannel_OnMessage_own_channel s dataChannel msg :
  let r := dataChannel_OnMessage dataChannel msg s in
  brv (final r) = brv s ∧
  (sendChannels (trace r) = [] ∨ sendChannels (trace r) = [dataChannel]) ∧
  (length (handlerCalls (trace r)) ≤ 1)%nat ∧
  writes (trace r) = [].
Proof.
  intros r. subst r. dataChannel_paths s msg dataChannel; simpl;
    repeat match goal with
           | |- context [match ?x with Some _ => _ | None => _ end] => destruct x; simpl
           end;
    repeat split; auto.
Qed.

(** X11. The callback of the data channel panics in one case only: no data
    handler is installed and the message is a text command that the
    registry answers with a binary response.  With a handler installed, or
    on any other message, it returns. *)
Theorem dataChannel_OnMessage_panics_iff s dataChannel msg :
  (∃ v, outcome (dataChannel_OnMessage dataChannel msg s) = Panics v) ↔
  onDataHandler (brv s) = None ∧ IsString msg = true ∧
  ∃ cmd payload,
    UnmarshalCommand (string_of_bytes (msg_Data msg)) = inr cmd ∧
    CommandRegistry_Process (commandRegistry (brv s)) cmd =
      inr (Some {| data := payload; isText := false |}).
Proof.
  dataChannel_paths s msg dataChannel; simpl;
    (split;
     [intros [v Hv]; try discriminate; repeat split; eauto
     |intros (Hh & Hs & cmd' & payload' & Hc & Hp);
      first [discriminate | congruence | by eauto]]).
Qed.

(** X12. With no data handler, a text message that is not a well-formed
    command is answered with the text of the parse error, on the channel it
    came on, and the callback returns. *)
Theorem malformed_command_reply s dataChannel msg err :
  onDataHandler (brv s) = None →
  IsString msg = true →
  UnmarshalCommand (string_of_bytes (msg_Data msg)) = inl err →
  let r := dataChannel_OnMessage dataChannel msg s in
  outcome r = Returns tt ∧ brv (final r) = brv s ∧
  textsSent (trace r) = [(dataChannel, err)] ∧ dataSent (trace r) = [] ∧
  handlerCalls (trace r) = [].
Proof.
  intros Hh Hs Hc r. subst r. dataChannel_paths s msg dataChannel; try congruence.
  injection Hc as ->. simpl.
  by destruct (DataChannel_SendText (net s) dataChannel err).2.
Qed.

(** X13. With no data handler, the response of a command goes back once,
    as the kind it declares: a text response as one text message, a binary
    response as one binary message, each on the channel the command came
    on. *)
Theorem command_response_sent s dataChannel msg cmd resp :
  onDataHandler (brv s) = None →
  IsString msg = true →
  UnmarshalCommand (string_of_bytes (msg_Data msg)) = inr cmd →
  CommandRegistry_Process (commandRegistry (brv s)) cmd = inr (Some resp) →
  let r := dataChannel_OnMessage dataChannel msg s in
  textsSent (trace r) =
    (if isText resp then [(dataChannel, string_of_bytes (data resp))] else []) ∧
  dataSent (trace r) = (if isText resp then [] else [(dataChannel, data resp)]) ∧
  (isText resp = true → outcome r = Returns tt) ∧
  handlerCalls (trace r) = [].
Proof.
  intros Hh Hs Hc Hp r. subst r. dataChannel_paths s msg dataChannel; try congruence;
    injection Hc as ->; rewrite Hproc in Hp; try discriminate; injection Hp as <-; simpl.
  - by destruct (DataChannel_SendText _ _ _).2.
  - by destruct (DataChannel_Send _ _ _).2.
Qed.

(** X14. With no data handler, a message that is not text, and a command
    the registry answers with no response, leave no trace: nothing is sent,
    nothing is logged, and the state is the one before. *)
Theorem unanswered_messages s dataChannel msg :
  onDataHandler (brv s) = None →
  IsString msg = false ∨
  (∃ cmd, UnmarshalCommand (string_of_bytes (msg_Data msg)) = inr cmd ∧
          CommandRegistry_Process (commandRegistry (brv s)) cmd = inr None) →
  dataChannel_OnMessage dataChannel msg s = (Returns tt, s, []).
Proof.
  intros Hh Hcase. dataChannel_paths s msg dataChannel; try congruence; try done;
    destruct Hcase as [?|(cmd' & Hc' & Hp')]; try congruence;
    injection Hc' as ->; congruence.
Qed.

(** *** The callback of the click channel *)

Lemma strings_Split_comma_length s :
  length (strings_Split_comma s) = S (commas s).
Proof.
  induction s as [|c s IH]; [done|]. simpl.
  destruct (Ascii.eqb c ","); simpl; [by rewrite IH|].
  destruct (strings_Split_comma s); simpl in *; [done|]. done.
Qed.

(** X15. A click message is looked at only when a click handler is
    installed.  Without one the callback returns at once, whatever the
    message.  With one, a message that has not exactly one comma, so not
    exactly two fields, panics before any field is parsed, and the handler
    is not called. *)
Theorem click_field_count s msg :
  (onClickHandler (brv s) = None →
   clickChannel_OnMessage msg s = (Returns tt, s, [])) ∧
  (∀ handler, onClickHandler (brv s) = Some handler →
     commas (string_of_bytes (msg_Data msg)) ≠ 1%nat →
     clickChannel_OnMessage msg s = (Panics "len(coords)", s, [])).
Proof.
  unfold clickChannel_OnMessage. rewrite bind_gets. split.
  - by intros ->.
  - intros handler -> Hcommas.
    pose proof (strings_Split_comma_length (string_of_bytes (msg_Data msg))) as Hlen.
    destruct (strings_Split_comma _) as [|c0 [|c1 [|c2 fields]]]; simpl in Hlen;
      try done. lia.
Qed.

(** X16. With a click handler installed, a message of two fields one of
    which does not parse as a number panics with the error of the parser,
    the first field being parsed first; the handler is not called. *)
Theorem click_parse_error s handler msg c0 c1 err :
  onClickHandler (brv s) = Some handler →
  strings_Split_comma (string_of_bytes (msg_Data msg)) = [c0; c1] →
  (strconv_ParseFloat32 c0).2 = Some err ∨
  ((strconv_ParseFloat32 c0).2 = None ∧ (strconv_ParseFloat32 c1).2 = Some err) →
  clickChannel_OnMessage msg s = (Panics err, s, []).
Proof.
  intros Hh Hsplit Hcase. unfold clickChannel_OnMessage. rewrite bind_gets, Hh, Hsplit.
  destruct (strconv_ParseFloat32 c0) as [x [e0|]], (strconv_ParseFloat32 c1) as [y [e1|]];
    simpl in Hcase; unfold panic; destruct Hcase as [?|[??]]; congruence.
Qed.

(** X17. Whatever the message, the callback of the click channel leaves
    the state as it is, sends nothing, writes nothing, and calls the click
    handler once at most. *)
Theorem clickChannel_OnMessage_frame s msg :
  let r := clickChannel_OnMessage msg s in
  final r = s ∧ sendChannels (trace r) = [] ∧ writes (trace r) = [] ∧
  (length (handlerCalls (trace r)) ≤ 1)%nat ∧
  (onClickHandler (brv s) = None → handlerCalls (trace r) = []).
Proof.
  intros r. subst r. unfold clickChannel_OnMessage. rewrite bind_gets.
  destruct (onClickHandler (brv s)) as [handler|];
    [|simpl; repeat split; try done; lia].
  destruct (strings_Split_comma _) as [|c0 [|c1 [|c2 fields]]];
    [| |destruct (strconv_ParseFloat32 c0) as [x [e0|]];
        [|destruct (strconv_ParseFloat32 c1) as [y [e1|]]]|];
    simpl; repeat split; try done; lia.
Qed.

(** *** The setters *)

(** X18. A data handler takes effect on the next message and a click
    handler does not disturb it: after [SetOnDataHandler], also with a
    [SetOnClickHandler] in between, a message on the data channel goes to
    the handler installed last and to nothing else; and installing a
    handler and taking it out again on a view that had none gives back
    the view. *)
Theorem handler_installation s handler click dataChannel msg :
  bind (SetOnDataHandler (Some handler))
    (λ _, bind (SetOnClickHandler click)
            (λ _, dataChannel_OnMessage dataChannel msg)) s =
  (Returns tt,
   with_brv (set_handlers (Some handler) click) s,
   [EvOnData handler (msg_Data msg)]) ∧
  (onDataHandler (brv s) = None →
   bind (SetOnDataHandler (Some handler)) (λ _, SetOnDataHandler None) s =
   (Returns tt, s, [])).
Proof.
  split.
  - unfold SetOnDataHandler, SetOnClickHandler. rewrite !bind_modify.
    rewrite (dataChannel_OnMessage_handler _ _ _ handler) by done.
    by destruct s as [[] ?].
  - intros Hh. unfold SetOnDataHandler. rewrite bind_modify.
    destruct s as [[] ?]. simpl in Hh. by subst.
Qed.

(** *** The wait group *)

Lemma backgroundProcessing_Done_run s :
  1 <= backgroundProcessing (brv s) →
  bind backgroundProcessing_Done (λ _, ret Returned) s =
  (Returns Returned,
   with_brv (set_backgroundProcessing (backgroundProcessing (brv s) - 1)) s, []).
Proof.
  intros Hb. unfold backgroundProcessing_Done.
  rewrite bind_run, backgroundProcessing_Add_run.
  destruct (Z.ltb_spec (backgroundProcessing (brv s) + -1) 0); [lia|]. done.
Qed.










(** X20. A connection goroutine that takes the shutdown case of its
    [select] does not register its connection and does not touch the
    gate: on a view at rest it returns with the state it found. *)
Theorem shutdown_worker_does_not_register s peerConnection rc iceConnected preferShutdown :
  0 <= backgroundProcessing (brv s) →
  shutdownCtx (brv s) = true →
  iceConnected = false ∨ preferShutdown = true →
  connectionWorker peerConnection rc iceConnected preferShutdown s =
  (Returns Returned, s, []).
Proof.
  intros Hb Hs Hcase. unfold connectionWorker.
  rewrite bind_run, backgroundProcessing_Add_run.
  destruct (Z.ltb_spec (backgroundProcessing (brv s) + 1) 0); [lia|].
  simpl. rewrite bind_gets. simpl. rewrite Hs.
  assert (Hdone : bind backgroundProcessing_Done (λ _, ret Returned)
                    (with_brv (set_backgroundProcessing (backgroundProcessing (brv s) + 1)) s) =
                  (Returns Returned, s, [])).
  { rewrite backgroundProcessing_Done_run by (simpl; lia). simpl.
    replace (backgroundProcessing (brv s) + 1 - 1) with (backgroundProcessing (brv s)) by lia.
    by destruct s as [[] ?]. }
  destruct iceConnected, preferShutdown, Hcase; try done; by rewrite Hdone.
Qed.

(** *** The ICE callback *)

(** X21. The ICE callback never registers a connection.  On disconnected,
    failed and closed it removes the connection it belongs to and no other;
    on every other state, connected and completed included, it leaves the
    view alone.  So a connection that was attached and then reported
    disconnected is not in the registry after a later report of connected. *)
Theorem onICEConnectionStateChange_registry s peerConnection connectionState rc :
  let r := onICEConnectionStateChange peerConnection connectionState s in
  outcome r = Returns (match connectionState with
                       | ICEConnectionStateConnected => true
                       | _ => false
                       end) ∧
  trace r = [EvLog LvlDebug "connection state changed"] ∧
  peerToRemoteClient (brv (final r)) =
    (if terminal connectionState
     then delete peerConnection (peerToRemoteClient (brv s))
     else peerToRemoteClient (brv s)) ∧
  (terminal connectionState = false → final r = s) ∧
  peerToRemoteClient
    (brv (final (bind (addRemoteClient peerConnection rc)
                   (λ _, bind (onICEConnectionStateChange peerConnection
                                 ICEConnectionStateDisconnected)
                           (λ _, onICEConnectionStateChange peerConnection
                                   ICEConnectionStateConnected)) s)))
    !! peerConnection = None.
Proof.
  intros r. subst r. split; [by destruct connectionState|].
  split; [by destruct connectionState|]. split; [by destruct connectionState|].
  split; [by destruct connectionState|].
  unfold addRemoteClient, onICEConnectionStateChange, removeRemoteClient.
  rewrite bind_modify. simpl. apply lookup_delete_eq.
Qed.
End View.

(** ** The input relay *)

(** C9. [Handle] reads the type of the payload first and parses the whole
    payload again at the type of the variant: a payload of type ["key"]
    goes to [HandleKey] as the key event parsed from it, a payload of type
    ["mouse"] goes to [HandlePtr] as the mouse event parsed from it, and for
    any other type neither handler runs and nothing is reported; a payload
    the parser rejects with the raw event left as declared is of no type. *)
Theorem Handle_dispatch {KeyEvent MouseEvent : Type}
    (zeroKeyEvent : KeyEvent) (zeroMouseEvent : MouseEvent)
    (Unmarshal_RawEvent : bytes → RawEvent → RawEvent * option error)
    (Unmarshal_KeyEvent : bytes → KeyEvent → KeyEvent * option error)
    (Unmarshal_MouseEvent : bytes → MouseEvent → MouseEvent * option error)
    (payload : bytes) :
  let raw := (Unmarshal_RawEvent payload {| Type_ := "" |}).1 in
  let run :=
    Handle zeroKeyEvent zeroMouseEvent
      Unmarshal_RawEvent Unmarshal_KeyEvent Unmarshal_MouseEvent payload in
  run =
    (if decide (Type_ raw = "key") then
       (HandleKey (Unmarshal_KeyEvent payload zeroKeyEvent).1).1
     else if decide (Type_ raw = "mouse") then
       (HandlePtr (Unmarshal_MouseEvent payload zeroMouseEvent).1).1
     else []) ∧
  (HandleKey (MouseEvent:=MouseEvent) (Unmarshal_KeyEvent payload zeroKeyEvent).1).1 =
    [SendingKey (Unmarshal_KeyEvent payload zeroKeyEvent).1] ∧
  (HandlePtr (KeyEvent:=KeyEvent) (Unmarshal_MouseEvent payload zeroMouseEvent).1).1 =
    [SendingPtr (Unmarshal_MouseEvent payload zeroMouseEvent).1] ∧
  (∀ err, Unmarshal_RawEvent payload {| Type_ := "" |} = ({| Type_ := "" |}, Some err) →
          run = []).
Proof.
  intros raw run. subst raw run. unfold Handle, KeyEventType, MouseEventType.
  split; [|split; [done|split; [done|]]].
  - destruct (String.eqb_spec (Type_ (Unmarshal_RawEvent payload {| Type_ := "" |}).1) "key")
      as [Hk|Hk].
    { by rewrite decide_True. }
    rewrite (decide_False (P:=_ = "key")) by done.
    destruct (String.eqb_spec (Type_ (Unmarshal_RawEvent payload {| Type_ := "" |}).1) "mouse")
      as [Hm|Hm].
    { by rewrite decide_True. }
    by rewrite decide_False.
  - by intros err ->.
Qed.

(** ** The properties at work *)

Lemma bench_range_perm (n : nat) (m : gmap positive remoteClient) :
  bench_range n m ≡ₚ map_to_list m.
Proof. reflexivity. Defined.

Lemma bench_range_turning_perm (n : nat) (m : gmap positive remoteClient) :
  bench_range_turning n m ≡ₚ map_to_list m.
Proof.
  unfold bench_range_turning. destruct (Nat.even n); [reflexivity|].
  apply reverse_Permutation.
Defined.

(** The scenario of three images, the second without output: the track of
    the one client sees two samples, the first and the third. *)
Lemma pipeline_writes_encoded_samples_witness :
  outputFrames (brv (bench_state bench_one_client [] None None)) = [] ∧
  writesTo 11
    (trace (pipeline bench_New bench_Encode bench_WriteSample bench_range
              bench_frames (bench_state bench_one_client [] None None))) =
  sampleOf <$>
    encodedSamples
      (trace (pipeline bench_New bench_Encode bench_WriteSample bench_range
                bench_frames (bench_state bench_one_client [] None None))).
Proof.
  split; [reflexivity|].
  apply (pipeline_writes_encoded_samples bench_New bench_Encode bench_WriteSample
           bench_range bench_range_perm bench_frames
           (bench_state bench_one_client [] None None) 1%positive bench_client1).
  - reflexivity.
  - reflexivity.
  - simpl. lia.
  - vm_compute. reflexivity.
  - intros peer' rc' Hl _. destruct (decide (peer' = 1%positive)) as [|Hne]; [assumption|].
    unfold bench_state, bench_view, bench_one_client in Hl. simpl in Hl.
    rewrite lookup_singleton_ne in Hl by congruence. discriminate.
  - reflexivity.
Defined.

Example pipeline_scenario :
  writesTo 11
    (trace (pipeline bench_New bench_Encode bench_WriteSample bench_range
              bench_frames (bench_state bench_one_client [] None None))) =
  [ {| Data := [x01]; Duration := 33000000 |};
    {| Data := [x03]; Duration := 33000000 |} ].
Proof. vm_compute. reflexivity. Qed.

(** The size of the encoder in the scenario: that of the first image. *)
Example encoder_initialized_once_scenario :
  factoryCalls
    (trace (pipeline bench_New bench_Encode bench_WriteSample bench_range
              (None :: Some (bench_frame 4 3 [x01]) :: Some (bench_frame 9 9 [x02]) :: [])
              (bench_state bench_one_client [] None None))) =
  [(4, 3)].
Proof. vm_compute. reflexivity. Qed.

(** Two connections attach to a new view: the gate opens once; before any
    attach it is shut; the second attach finds it open. *)
Lemma ready_fires_once_witness :
  readyEvents
    (trace (runOps bench_SendText bench_Send bench_UnmarshalCommand
              ParseFloat32_decimal (λ _, 0) bench_ops
              {| brv := NewRemoteView (Enc:=nat) false; net := 0%nat; ranges := 0 |})) = fired ∧
  readyCh
    (brv (final (runOps bench_SendText bench_Send bench_UnmarshalCommand
                   ParseFloat32_decimal (λ _, 0) [OpStop]
                   {| brv := NewRemoteView (Enc:=nat) false; net := 0%nat; ranges := 0 |}))) = false ∧
  readyEvents
    (trace (connectionWorker 3 bench_client2 true false
              (final (runOps bench_SendText bench_Send bench_UnmarshalCommand
                        ParseFloat32_decimal (λ _, 0) bench_ops
                        {| brv := NewRemoteView (Enc:=nat) false; net := 0%nat; ranges := 0 |})))) = [].
Proof.
  split; [|split].
  - destruct (ready_fires_once bench_New bench_Encode bench_WriteSample
                bench_SendText bench_Send bench_range bench_UnmarshalCommand
                ParseFloat32_decimal (λ _, 0) false 0%nat bench_ops)
      as [[[Hch _]|[_ Hev]] _].
    + vm_compute in Hch. discriminate.
    + exact Hev.
  - destruct (ready_fires_once bench_New bench_Encode bench_WriteSample
                bench_SendText bench_Send bench_range bench_UnmarshalCommand
                ParseFloat32_decimal (λ _, 0) false 0%nat [OpStop])
      as (_ & Hshut & _).
    apply Hshut. repeat constructor.
  - destruct (ready_fires_once bench_New bench_Encode bench_WriteSample
                bench_SendText bench_Send bench_range bench_UnmarshalCommand
                ParseFloat32_decimal (λ _, 0) false 0%nat bench_ops)
      as (_ & _ & Hatt & _).
    destruct (Hatt 3%positive bench_client2 true false) as (_ & _ & Hev).
    + vm_compute. reflexivity.
    + exact Hev.
Defined.

(** A sample for two clients, the first of which fails: the program panics
    at the first write and the second client is not written to. *)
Lemma write_failure_aborts_witness :
  (bench_range (ranges (bench_state bench_two_clients [[x01]; [x02]] None None))
     (peerToRemoteClient
        (brv (bench_state bench_two_clients [[x01]; [x02]] None None)))).*2 =
    [] ++ bench_client2 :: [bench_client1] ∧
  outcome (processOutputFrames (bench_WriteSample_failing 21) bench_range
             (bench_state bench_two_clients [[x01]; [x02]] None None)) =
    Panics "write failed" ∧
  trace (processOutputFrames (bench_WriteSample_failing 21) bench_range
           (bench_state bench_two_clients [[x01]; [x02]] None None)) =
    trace (writeToClients (bench_WriteSample_failing 21) [] [x01]
             (bench_state bench_two_clients [[x01]; [x02]] None None)) ++
    [EvWriteSample 21 (sampleOf [x01]) (Some "write failed")].
Proof.
  split; [vm_compute; reflexivity|].
  apply (write_failure_aborts (bench_WriteSample_failing 21) bench_range
           [x01] [[x02]] (bench_state bench_two_clients [[x01]; [x02]] None None)
           [] bench_client2 [bench_client1] "write failed").
  - reflexivity.
  - reflexivity.
  - vm_compute. reflexivity.
  - reflexivity.
  - vm_compute. reflexivity.
Defined.

(** A command that is not registered, and a command that fails: the error
    goes back as text on the channel of the peer. *)
Lemma command_error_reply_witness :
  trace (dataChannel_OnMessage bench_SendText bench_Send bench_UnmarshalCommand
           10 (bench_text "zoom") (bench_state bench_one_client [] None None)) =
    [EvLog LvlDebug "error processing command";
     EvSendText 10 "no such command" None] ∧
  trace (dataChannel_OnMessage bench_SendText bench_Send bench_UnmarshalCommand
           10 (bench_text "fail") (bench_state bench_one_client [] None None)) =
    [EvLog LvlDebug "error processing command";
     EvSendText 10 "not now" None].
Proof.
  split.
  - apply (command_error_reply bench_SendText bench_Send bench_UnmarshalCommand
             (bench_state bench_one_client [] None None) 10%positive (bench_text "zoom")
             {| cmdName := "zoom"; cmdArgs := [] |} "no such command").
    + reflexivity.
    + reflexivity.
    + vm_compute. reflexivity.
    + left. split; [vm_compute; reflexivity|reflexivity].
  - apply (command_error_reply bench_SendText bench_Send bench_UnmarshalCommand
             (bench_state bench_one_client [] None None) 10%positive (bench_text "fail")
             {| cmdName := "fail"; cmdArgs := [] |} "not now").
    + reflexivity.
    + reflexivity.
    + vm_compute. reflexivity.
    + right. exists bench_fail. split; [vm_compute; reflexivity|reflexivity].
Defined.


(** C7 as it is worded fails on ["1e19,5"]: both fields parse, the first
    to 9999999980506447872, which is above the largest [int]; the handler is
    called, once, with the smallest [int] and 5, and not with the number cut
    to an integer, which no conversion to [int] can give. *)
Lemma click_truncates_coordinates_counterexample :
  onClickHandler (brv (bench_state bench_one_client [] None (Some 7%positive))) =
    Some 7%positive ∧
  strings_Split_comma (string_of_bytes (msg_Data (bench_text "1e19,5"))) = ["1e19"; "5"] ∧
  ParseFloat32_decimal "1e19" = (Finite 9094947 40, None) ∧
  ParseFloat32_decimal "5" = (Finite 10485760 (-21), None) ∧
  truncate (Finite 9094947 40) = Some 9999999980506447872 ∧
  truncate (Finite 10485760 (-21)) = Some 5 ∧
  clickChannel_OnMessage ParseFloat32_decimal int_unrepresentable_amd64 (bench_text "1e19,5")
    (bench_state bench_one_client [] None (Some 7%positive)) =
  (Returns tt, bench_state bench_one_client [] None (Some 7%positive),
   [EvOnClick 7 (-9223372036854775808) 5]) ∧
  (∀ int_unrepresentable : float64 → Z,
     (∀ x, - 2 ^ 63 <= int_unrepresentable x < 2 ^ 63) →
     clickChannel_OnMessage ParseFloat32_decimal int_unrepresentable (bench_text "1e19,5")
       (bench_state bench_one_client [] None (Some 7%positive)) ≠
     (Returns tt, bench_state bench_one_client [] None (Some 7%positive),
      [EvOnClick 7 9999999980506447872 5])).
Proof.
  repeat (split; [vm_compute; reflexivity|]).
  intros int_unrepresentable Hint Hrun.
  assert (Hcall : clickChannel_OnMessage ParseFloat32_decimal int_unrepresentable
            (bench_text "1e19,5") (bench_state bench_one_client [] None (Some 7%positive)) =
          (Returns tt, bench_state bench_one_client [] None (Some 7%positive),
           [EvOnClick 7 (int_unrepresentable (Finite 9094947 40)) 5]))
    by (vm_compute; reflexivity).
  rewrite Hcall in Hrun. injection Hrun as Hx.
  specialize (Hint (Finite 9094947 40)). rewrite Hx in Hint. lia.
Qed.

(** Removing a peer that never attached. *)
Lemma removeRemoteClient_absent_witness :
  peerToRemoteClient (brv (bench_state bench_one_client [] None None)) !! 2%positive = None ∧
  removeRemoteClient 2 (bench_state bench_one_client [] None None) =
    (Returns tt, bench_state bench_one_client [] None None, []).
Proof.
  split; [vm_compute; reflexivity|].
  apply (removeRemoteClient_absent bench_range bench_range_perm
           (bench_state bench_one_client [] None None) 2%positive).
  vm_compute. reflexivity.
Defined.

(** A key event, a mouse event, an event of another type and a payload
    that does not parse. *)
Lemma Handle_dispatch_witness :
  Handle 0%nat (0, 0) bench_Unmarshal_RawEvent bench_Unmarshal_KeyEvent
    bench_Unmarshal_MouseEvent [] = [].
Proof.
  apply (Handle_dispatch 0%nat (0, 0) bench_Unmarshal_RawEvent bench_Unmarshal_KeyEvent
           bench_Unmarshal_MouseEvent [] ) with (err := "unexpected end of JSON input").
  reflexivity.
Defined.

Example Handle_scenario :
  Handle 0%nat (0, 0) bench_Unmarshal_RawEvent bench_Unmarshal_KeyEvent
    bench_Unmarshal_MouseEvent ["k"%byte; "1"%byte] = [SendingKey 2%nat] ∧
  Handle 0%nat (0, 0) bench_Unmarshal_RawEvent bench_Unmarshal_KeyEvent
    bench_Unmarshal_MouseEvent ["m"%byte] = [SendingPtr (1, 0)] ∧
  Handle 0%nat (0, 0) bench_Unmarshal_RawEvent bench_Unmarshal_KeyEvent
    bench_Unmarshal_MouseEvent ["t"%byte] = [].
Proof. repeat split. Qed.

(** C4. With a data handler installed, every message goes to the handler
    and the command dispatch does not run.  With no data handler, a text
    message whose command answers with a binary response is dispatched,
    the response is sent, and the callback then calls the handler that is
    not there: the program panics, where the message was to be handled by
    the dispatch alone. *)
Theorem dataChannel_OnMessage_binary_response_panics :
  dataChannel_OnMessage bench_SendText bench_Send bench_UnmarshalCommand
    10 (bench_text "snapshot") (bench_state bench_one_client [] (Some 5%positive) None) =
  (Returns tt, bench_state bench_one_client [] (Some 5%positive) None,
   [EvOnData 5 (list_byte_of_string "snapshot")]) ∧
  outcome (dataChannel_OnMessage bench_SendText bench_Send bench_UnmarshalCommand
             10 (bench_text "snapshot") (bench_state bench_one_client [] None None)) =
  Panics "invalid memory address or nil pointer dereference" ∧
  trace (dataChannel_OnMessage bench_SendText bench_Send bench_UnmarshalCommand
           10 (bench_text "snapshot") (bench_state bench_one_client [] None None)) =
  [EvSend 10 [x89; x50] None].
Proof. repeat split; vm_compute; reflexivity. Qed.

(** ** The parts of [Handler] and of the page that do not touch the view *)

(** X22. The route of a view is ["offer_"] followed by its stream number
    in decimal, and views with different stream numbers have different
    routes. *)
Theorem handlerName_injective (n1 n2 : Z) :
  handlerName n1 = "offer_" +:+ pretty n1 ∧
  (handlerName n1 = handlerName n2 → n1 = n2).
Proof.
  assert (Hnum : ∀ n, streamNum n = n).
  { intros n. unfold streamNum. destruct (Z.eqb_spec n 0); simpl; congruence. }
  unfold handlerName. rewrite !Hnum. split; [done|].
  intros Heq. simpl in Heq. injection Heq as Heq. by apply (inj pretty).
Qed.

(** *** The statistics of a connection *)

Lemma candidateTypeName_named t :
  candidateTypeName t ≠ "" →
  candidateTypeName t ∈ ["relay"; "peer-reflexive"; "server-reflexive"].
Proof. destruct t; simpl; intros Hne; try done; set_solver. Qed.

Lemma getPeerConnectionStats_spec stats :
  let connID := (getPeerConnectionStats stats).1 in
  let connInfo := (getPeerConnectionStats stats).2 in
  (∀ k ip, connInfo !! k = Some ip →
     ∃ ct, ICECandidateStats StatsTypeRemoteCandidate ct ip ∈ stats ∧
           candidateTypeName ct = k ∧ k ≠ "") ∧
  (∀ ct ip, ICECandidateStats StatsTypeRemoteCandidate ct ip ∈ stats →
     candidateTypeName ct ≠ "" → is_Some (connInfo !! candidateTypeName ct)) ∧
  (connID = "" ∨ PeerConnectionStats connID ∈ stats) ∧
  ((∀ ID, PeerConnectionStats ID ∉ stats) → connID = "").
Proof.
  unfold getPeerConnectionStats. induction stats as [|stat stats IH] using rev_ind.
  - simpl. split; [intros k ip Hl; by rewrite lookup_empty in Hl|].
    split; [intros ct ip Hin; by apply elem_of_nil in Hin|]. by split; [left|].
  - rewrite foldl_snoc. cbv zeta in IH. destruct IH as (Hsome & Hin & Hid & Hnone).
    set (acc := foldl statsRound (EmptyString, ∅) stats) in *.
    assert (Hinfo : (statsRound acc stat).2 =
      match stat with
      | ICECandidateStats StatsTypeRemoteCandidate ct ip =>
          if String.eqb (candidateTypeName ct) ""
          then acc.2 else <[candidateTypeName ct := ip]> acc.2
      | _ => acc.2
      end).
    { destruct stat as [|[] ct ip|]; simpl; try done. by destruct (String.eqb _ _). }
    assert (Hconn : (statsRound acc stat).1 =
      match stat with PeerConnectionStats ID => ID | _ => acc.1 end).
    { destruct stat as [|[] ct ip|]; simpl; try done. by destruct (String.eqb _ _). }
    cbv zeta. rewrite Hinfo, Hconn. clear Hinfo Hconn. split; [|split; [|split]].
    + intros k ip Hl.
      assert (Hold : acc.2 !! k = Some ip →
        ∃ ct, ICECandidateStats StatsTypeRemoteCandidate ct ip ∈ stats ++ [stat] ∧
              candidateTypeName ct = k ∧ k ≠ "").
      { intros Hl'. destruct (Hsome k ip Hl') as (ct & Hct & Hk).
        exists ct. split; [apply elem_of_app; by left|done]. }
      destruct stat as [|[] ct ip'|]; try by apply Hold.
      destruct (String.eqb_spec (candidateTypeName ct) ""); [by apply Hold|].
      destruct (decide (candidateTypeName ct = k)) as [<-|Hne].
      * rewrite lookup_insert_eq in Hl. injection Hl as ->.
        exists ct. split; [apply elem_of_app; right; apply list_elem_of_singleton; done|done].
      * rewrite lookup_insert_ne in Hl by done. by apply Hold.
    + intros ct ip Hmem Hname. apply elem_of_app in Hmem as [Hmem|Hmem].
      * specialize (Hin ct ip Hmem Hname).
        destruct stat as [|[] ct' ip'|]; try done.
        destruct (String.eqb_spec (candidateTypeName ct') ""); [done|].
        destruct (decide (candidateTypeName ct' = candidateTypeName ct)) as [->|Hne].
        -- rewrite lookup_insert_eq. by eexists.
        -- by rewrite lookup_insert_ne.
      * apply list_elem_of_singleton in Hmem as <-.
        destruct (String.eqb_spec (candidateTypeName ct) ""); [done|].
        rewrite lookup_insert_eq. by eexists.
    + destruct stat as [ID| |];
        [right; apply elem_of_app; right; by apply list_elem_of_singleton|..];
        (destruct Hid as [?|?]; [by left|right; apply elem_of_app; by left]).
    + intros Hno. destruct stat as [ID| |].
      * exfalso. apply (Hno ID), elem_of_app. right. by apply list_elem_of_singleton.
      * apply Hnone. intros ID HID. apply (Hno ID), elem_of_app. by left.
      * apply Hnone. intros ID HID. apply (Hno ID), elem_of_app. by left.
Qed.

(** X23. [getPeerConnectionStats] reports remote candidates that are
    relayed or reflexive, and nothing else: a candidate type has an address
    in the report exactly when the statistics hold a remote candidate of
    that type, the address is that of such a candidate, local candidates
    and host candidates are left out whatever the order the statistics come
    in, and the identifier is empty unless the statistics hold a
    connection entry, whose identifier it then is. *)
Theorem getPeerConnectionStats_remote_candidates stats :
  let connID := (getPeerConnectionStats stats).1 in
  let connInfo := (getPeerConnectionStats stats).2 in
  (∀ k, is_Some (connInfo !! k) ↔
        ∃ ct ip, ICECandidateStats StatsTypeRemoteCandidate ct ip ∈ stats ∧
                 candidateTypeName ct = k ∧ k ≠ "") ∧
  (∀ k ip, connInfo !! k = Some ip →
     k ∈ ["relay"; "peer-reflexive"; "server-reflexive"] ∧
     ∃ ct, ICECandidateStats StatsTypeRemoteCandidate ct ip ∈ stats ∧
           candidateTypeName ct = k) ∧
  (∀ stats', stats' ≡ₚ stats →
     dom (getPeerConnectionStats stats').2 = dom connInfo) ∧
  (connID = "" ∨ PeerConnectionStats connID ∈ stats) ∧
  ((∀ ID, PeerConnectionStats ID ∉ stats) → connID = "").
Proof.
  intros connID connInfo.
  assert (Hiff : ∀ l k, is_Some ((getPeerConnectionStats l).2 !! k) ↔
        ∃ ct ip, ICECandidateStats StatsTypeRemoteCandidate ct ip ∈ l ∧
                 candidateTypeName ct = k ∧ k ≠ "").
  { intros l k. destruct (getPeerConnectionStats_spec l) as (Hsome & Hin & _). split.
    - intros [ip Hl]. destruct (Hsome k ip Hl) as (ct & ?). by exists ct, ip.
    - intros (ct & ip & Hmem & <- & Hne). by apply (Hin ct ip). }
  destruct (getPeerConnectionStats_spec stats) as (Hsome & Hin & Hid & Hnone).
  split; [apply Hiff|]. split; [|split; [|done]].
  - intros k ip Hl. destruct (Hsome k ip Hl) as (ct & Hmem & Hk & Hne).
    split; [|by exists ct]. subst k. by apply candidateTypeName_named.
  - intros stats' Hperm. apply set_eq. intros k. subst connInfo.
    rewrite !elem_of_dom, !Hiff.
    split; intros (ct & ip & Hmem & Hk); exists ct, ip; (split; [|done]).
    + by rewrite <- Hperm.
    + by rewrite Hperm.
Qed.

(** *** The ICE servers of the page *)

Lemma string_app_cons (x : ascii) (a b : string) :
  String x a +:+ b = String x (a +:+ b).
Proof. done. Qed.

Lemma string_app_assoc (a b c : string) : (a +:+ b) +:+ c = a +:+ (b +:+ c).
Proof.
  induction a as [|x a IH]; [done|]. rewrite !string_app_cons. simpl. by f_equal.
Qed.

Lemma string_app_empty_r (a : string) : a +:+ "" = a.
Proof.
  induction a as [|x a IH]; [done|]. rewrite !string_app_cons. simpl. by f_equal.
Qed.

Lemma string_length_app (a b : string) :
  String.length (a +:+ b) = (String.length a + String.length b)%nat.
Proof.
  induction a as [|x a IH]; [done|]. rewrite !string_app_cons. simpl. by f_equal.
Qed.

Lemma substring_app (a b : string) : substring 0 (String.length a) (a +:+ b) = a.
Proof.
  induction a as [|x a IH]; [by destruct b|]. rewrite string_app_cons. simpl. by f_equal.
Qed.

Lemma WriteString_run s buf : WriteString s buf = (Returns tt, buf +:+ s, []).
Proof. done. Qed.

Lemma bind_WriteString {B} s (k : unit → M string B) buf :
  bind (WriteString s) k buf = k tt (buf +:+ s).
Proof. unfold WriteString. by rewrite bind_modify. Qed.

(** A step that returns and calls nothing. *)
Lemma bind_silent {St A B} (m : M St A) (k : A → M St B) s a s' :
  m s = (Returns a, s', []) → bind m k s = k a s'.
Proof. intros Hm. unfold bind. rewrite Hm. by destruct (k a s') as [[??]?]. Qed.

(** Cutting the last byte of the buffer off is in range when there is
    one. *)
Lemma Truncate_last (s : string) (c : ascii) :
  (let! n := Buffer_Len in Truncate (n - 1)) (s +:+ String c "") = (Returns tt, s, []).
Proof.
  unfold Buffer_Len, Truncate. rewrite bind_gets. unfold get, put, bind. cbv beta iota.
  rewrite string_length_app. change (String.length (String c "")) with 1%nat.
  replace (Z.of_nat (String.length s + 1) - 1) with (Z.of_nat (String.length s)) by lia.
  destruct (Z.ltb_spec (Z.of_nat (String.length s)) 0); [lia|].
  destruct (Z.ltb_spec (Z.of_nat (String.length s + 1)) (Z.of_nat (String.length s))); [lia|].
  simpl. by rewrite Nat2Z.id, substring_app.
Qed.

(** Items each followed by a separator are the items joined by it,
    followed by it once. *)
Lemma trailing_concat (p : string) (c : ascii) (l : list string) :
  l ≠ [] →
  trailing (p +:+ String c "") l = (String.concat (p +:+ String c "") l +:+ p) +:+ String c "".
Proof.
  induction l as [|x l IH]; [done|]. intros _. destruct l as [|y l].
  - simpl. by rewrite string_app_empty_r, string_app_assoc.
  - specialize (IH ltac:(done)).
    change (trailing ?t (x :: ?l)) with (x +:+ t +:+ trailing t l).
    rewrite IH.
    change (String.concat ?t (x :: y :: ?l)) with (x +:+ t +:+ String.concat t (y :: l)).
    by rewrite !string_app_assoc.
Qed.

Lemma writeURLs_run urls buf :
  writeURLs urls buf = (Returns tt, buf +:+ trailing "'," urls, []).
Proof.
  revert buf. induction urls as [|u urls IH]; intros buf.
  - simpl. by rewrite string_app_empty_r.
  - simpl writeURLs. rewrite !bind_WriteString, IH.
    change (trailing ?t (u :: ?l)) with (u +:+ t +:+ trailing t l).
    by rewrite !string_app_assoc.
Qed.

(** The URLs of a server, once the last comma is cut off. *)
Lemma writeURLs_truncated urls buf :
  (writeURLs urls ;;
   (if (0 <? length urls)%nat then (let! n := Buffer_Len in Truncate (n - 1)) else ret tt)) buf =
  (Returns tt, buf +:+ urlsText urls, []).
Proof.
  rewrite (bind_silent _ _ _ _ _ (writeURLs_run urls buf)).
  destruct urls as [|u urls]; [simpl; by rewrite string_app_empty_r|].
  change (0 <? length (u :: urls))%nat with true. cbv iota.
  change "'," with ("'" +:+ String "," "") at 1.
  rewrite trailing_concat by done. rewrite <- string_app_assoc.
  by rewrite Truncate_last.
Qed.

Lemma writeServer_run server buf :
  writeServer server buf = (Returns tt, buf +:+ serverText server +:+ ",", []).
Proof.
  unfold writeServer. rewrite !bind_WriteString.
  rewrite <- bind_assoc. rewrite (bind_silent _ _ _ _ _ (writeURLs_truncated _ _)).
  rewrite bind_WriteString. unfold serverText.
  destruct (negb (Username server =? ""))%string, (Credential server) as [cred|];
    repeat (rewrite bind_assoc || rewrite bind_WriteString || rewrite bind_ret);
    cbv beta; rewrite WriteString_run, ?string_app_empty_r; by rewrite !string_app_assoc.
Qed.

Lemma writeServers_run servers buf :
  writeServers servers buf =
  (Returns tt, buf +:+ trailing "," (map serverText servers), []).
Proof.
  revert buf. induction servers as [|server servers IH]; intros buf.
  - simpl. by rewrite string_app_empty_r.
  - simpl writeServers. rewrite (bind_silent _ _ _ _ _ (writeServer_run _ _)), IH.
    change (trailing ?t (map ?f (server :: ?l)))
      with (f server +:+ t +:+ trailing t (map f l)).
    by rewrite !string_app_assoc.
Qed.

(** X24. [iceServers] never truncates its buffer out of range, so it
    returns for every configuration, and what it returns is the bracketed
    list of the servers separated by commas with no comma after the last:
    each server is its URLs, each followed by a quote and all but the last
    by a comma, then its user name when it is not empty and its credential
    when it is a string.  Only the first URL of a server has its opening
    quote, and a server without URLs is written with one quote. *)
Theorem iceServers_text servers :
  iceServers servers "" =
  (Returns tt, "[" +:+ String.concat "," (map serverText servers) +:+ "]", []).
Proof.
  unfold iceServers. rewrite bind_WriteString.
  rewrite (bind_silent _ _ _ _ _ (writeServers_run _ _)).
  destruct servers as [|server servers]; [done|].
  change (0 <? length (server :: servers))%nat with true. cbv iota.
  change "," with ("" +:+ String "," "") at 1.
  rewrite trailing_concat by done. rewrite string_app_empty_r, <- string_app_assoc.
  rewrite (bind_silent _ _ _ _ _ (Truncate_last _ _)), WriteString_run.
  by rewrite !string_app_assoc.
Qed.

Example iceServers_scenario :
  final (iceServers bench_servers "") =
  "[{urls: ['stun:a']},{urls: ['turn:b',turn:c'],username:'u',credential:'p'},{urls: [']}]".
Proof. vm_compute. reflexivity. Qed.

(** *** Reading the offer *)

Lemma cut_line_lines (s : string) :
  match cut_line s with
  | Some (line, rest) => lines s = line :: lines rest
  | None => lines s = match s with EmptyString => [] | _ => [s] end
  end.
Proof.
  induction s as [|c s IH]; [done|]. simpl.
  destruct (Ascii.eqb c "010"); [done|].
  destruct (cut_line s) as [[line rest]|].
  - by rewrite IH.
  - rewrite IH. by destruct s.
Qed.

Lemma length_pos (s : string) : (0 <? String.length s)%nat = negb (String.eqb s "").
Proof. by destruct s. Qed.

Section OfferProperties.
Variable strings_TrimSpace : string → string.

Lemma readOffer_step rounds r :
  readOffer strings_TrimSpace (S rounds) r =
  let '(line, err, r') := ReadString_newline r in
  match err with
  | ReadFailed e => Panics e
  | _ =>
      if (0 <? String.length (strings_TrimSpace line))%nat
      then Returns (Some (strings_TrimSpace line))
      else readOffer strings_TrimSpace rounds r'
  end.
Proof. done. Qed.

(** X25. The offer is the first line of the body that is not blank,
    trimmed: the loop of [Handler] skips the lines that trim to nothing and
    leaves with the first line that does not, as soon as it has one round
    more than there are blank lines before it.  The line may be the last of
    a body that ends without a newline; what follows it is not read. *)
Theorem readOffer_first_line r blanks line rest rounds :
  lines (unread r) = blanks ++ line :: rest →
  Forall (λ l, strings_TrimSpace l = "") blanks →
  strings_TrimSpace line ≠ "" →
  ending r = None ∨ rest ≠ [] →
  (length blanks < rounds)%nat →
  readOffer strings_TrimSpace rounds r = Returns (Some (strings_TrimSpace line)).
Proof.
  revert r rounds.
  induction blanks as [|blank blanks IH]; intros r rounds Hlines Hblank Hline Hend Hrounds.
  - destruct rounds as [|rounds]; [simpl in Hrounds; lia|].
    rewrite readOffer_step. unfold ReadString_newline.
    pose proof (cut_line_lines (unread r)) as Hcut. rewrite Hlines in Hcut. simpl in Hcut.
    assert (Hpos : (0 <? String.length (strings_TrimSpace line))%nat = true).
    { rewrite length_pos. by destruct (String.eqb_spec (strings_TrimSpace line) ""). }
    destruct (cut_line (unread r)) as [[first others]|].
    + injection Hcut as <- _. by rewrite Hpos.
    + destruct (unread r) as [|c s] eqn:Hs; [done|]. injection Hcut as -> ->.
      destruct Hend as [->|?]; [|done]. by rewrite Hpos.
  - destruct rounds as [|rounds]; [simpl in Hrounds; lia|].
    rewrite readOffer_step. unfold ReadString_newline.
    pose proof (cut_line_lines (unread r)) as Hcut. rewrite Hlines in Hcut. simpl in Hcut.
    apply Forall_cons in Hblank as [Hb Hblank].
    destruct (cut_line (unread r)) as [[first others]|].
    + injection Hcut as <- Hothers. rewrite Hb. simpl.
      apply IH; simpl; try done. simpl in Hrounds. lia.
    + destruct (unread r) as [|c s] eqn:Hs; [done|]. injection Hcut as _ Hnil.
      by destruct blanks.
Qed.

(** X26. A body of blank lines that an error of the connection cuts makes
    [Handler] panic with that error, once the blank lines are read. *)
Theorem readOffer_read_error r err rounds :
  Forall (λ l, strings_TrimSpace l = "") (lines (unread r)) →
  ending r = Some err →
  (length (lines (unread r)) < rounds)%nat →
  readOffer strings_TrimSpace rounds r = Panics err.
Proof.
  remember (lines (unread r)) as ls eqn:Hls. revert r rounds Hls.
  induction ls as [|l ls IH]; intros r rounds Hls Hblank Hend Hrounds.
  - destruct rounds as [|rounds]; [simpl in Hrounds; lia|].
    rewrite readOffer_step. unfold ReadString_newline.
    pose proof (cut_line_lines (unread r)) as Hcut. rewrite <- Hls in Hcut.
    destruct (cut_line (unread r)) as [[first others]|]; [done|]. by rewrite Hend.
  - destruct rounds as [|rounds]; [simpl in Hrounds; lia|].
    rewrite readOffer_step. unfold ReadString_newline.
    pose proof (cut_line_lines (unread r)) as Hcut. rewrite <- Hls in Hcut.
    apply Forall_cons in Hblank as [Hb Hblank].
    destruct (cut_line (unread r)) as [[first others]|]; [|by rewrite Hend].
    injection Hcut as <- ->. rewrite Hb. simpl.
    apply IH; simpl; try done. simpl in Hrounds. lia.
Qed.

(** X27. On a body of blank lines that ends well, the empty body included,
    the loop never leaves: [io.EOF] is not taken for a reason to stop, the
    reader goes on returning the empty string, and after any number of
    rounds the loop is still reading. *)
Theorem readOffer_blank_body r rounds :
  strings_TrimSpace "" = "" →
  Forall (λ l, strings_TrimSpace l = "") (lines (unread r)) →
  ending r = None →
  readOffer strings_TrimSpace rounds r = Returns None.
Proof.
  intros Hempty. revert r. induction rounds as [|rounds IH]; intros r Hblank Hend; [done|].
  rewrite readOffer_step. unfold ReadString_newline.
  pose proof (cut_line_lines (unread r)) as Hcut.
  destruct (cut_line (unread r)) as [[first others]|].
  - rewrite Hcut in Hblank. apply Forall_cons in Hblank as [Hb Hblank].
    rewrite Hb. simpl. by apply IH.
  - rewrite Hend. destruct (unread r) as [|c s] eqn:Hs.
    + rewrite Hempty. simpl. apply IH; [by constructor|done].
    + rewrite Hcut in Hblank. apply Forall_cons in Hblank as [Hb _].
      rewrite Hb. simpl. apply IH; [by constructor|done].
Qed.
End OfferProperties.

(** ** The further properties at work *)

(** A second connection attaches to a view with one client. *)
Lemma addRemoteClient_registers_witness :
  let r := addRemoteClient 2 bench_client2 (bench_state bench_one_client [] None None) in
  outcome r = Returns tt ∧
  peerToRemoteClient (brv (final r)) !! 2%positive = Some bench_client2 ∧
  peerToRemoteClient (brv (final r)) !! 1%positive = Some bench_client1 ∧
  length (bench_range_turning 1 (peerToRemoteClient (brv (final r)))).*2 = 2%nat.
Proof.
  destruct (addRemoteClient_registers bench_range_turning bench_range_turning_perm
              (bench_state bench_one_client [] None None) 2%positive bench_client2 1%nat)
    as (Hout & _ & Hnew & Hold & _ & Hlen).
  split; [exact Hout|]. split; [exact Hnew|]. split.
  - rewrite Hold by discriminate. vm_compute. reflexivity.
  - rewrite Hlen. vm_compute. reflexivity.
Defined.

Lemma add_then_remove_witness :
  bind (addRemoteClient 2 bench_client2) (λ _, removeRemoteClient 2)
    (bench_state bench_one_client [] None None) =
  (Returns tt, bench_state bench_one_client [] None None, []).
Proof.
  apply (add_then_remove (bench_state bench_one_client [] None None) 2%positive bench_client2).
  vm_compute. reflexivity.
Defined.

(** The first of two clients goes: the second stays. *)
Lemma removeRemoteClient_present_witness :
  let r := removeRemoteClient 1 (bench_state bench_two_clients [] None None) in
  peerToRemoteClient (brv (final r)) !! 1%positive = None ∧
  peerToRemoteClient (brv (final r)) !! 2%positive = Some bench_client2 ∧
  length (bench_range_turning 1 (peerToRemoteClient (brv (final r)))).*2 = 1%nat.
Proof.
  destruct (removeRemoteClient_present bench_range_turning bench_range_turning_perm
              (bench_state bench_two_clients [] None None) 1%positive bench_client1
              0%nat 1%nat)
    as (_ & _ & Hgone & Hold & _ & Hlen).
  - vm_compute. reflexivity.
  - split; [exact Hgone|]. split.
    + rewrite Hold by discriminate. vm_compute. reflexivity.
    + apply eq_add_S. rewrite Hlen. vm_compute. reflexivity.
Defined.

(** A text for two clients, the first send of which fails: both are sent
    to, and the failure is logged. *)
Lemma broadcast_reaches_every_client_witness :
  let rt := SendText (bench_SendText_failing 20) bench_range "hello"
              (bench_state bench_two_clients [] None None) in
  outcome rt = Returns tt ∧
  textsSent (trace rt) = [(20%positive, "hello"); (10%positive, "hello")] ∧
  errorsLogged (trace rt) = ["channel closed"].
Proof.
  destruct (broadcast_reaches_every_client (bench_SendText_failing 20) bench_Send
              bench_range bench_range_perm
              (bench_state bench_two_clients [] None None) "hello" [])
    as ((Hout & _ & Htexts & _ & Herr) & _).
  split; [exact Hout|]. split.
  - rewrite Htexts. vm_compute. reflexivity.
  - rewrite Herr. vm_compute. reflexivity.
Defined.

(** Two samples for two clients, on a runtime that turns the order round
    from one [range] to the next: four writes, the second sample going to
    the clients the other way round. *)
Lemma processOutputFrames_writes_all_witness :
  let r := processOutputFrames bench_WriteSample bench_range_turning
             (bench_state bench_two_clients [[x01]; [x02]] None None) in
  writes (trace r) =
    [(21%positive, sampleOf [x01]); (11%positive, sampleOf [x01]);
     (11%positive, sampleOf [x02]); (21%positive, sampleOf [x02])] ∧
  (writes (trace r)).*2 =
    [sampleOf [x01]; sampleOf [x01]; sampleOf [x02]; sampleOf [x02]] ∧
  outputFrames (brv (final r)) = [] ∧
  outcome r = Returns Blocked.
Proof.
  destruct (processOutputFrames_writes_all bench_WriteSample bench_range_turning
              bench_range_turning_perm
              (bench_state bench_two_clients [[x01]; [x02]] None None))
    as (Hwrites & Hsamples & _ & _ & Hqueue & Hout).
  - intros w track smp. reflexivity.
  - reflexivity.
  - simpl. lia.
  - split; [|split; [|split; [exact Hqueue|exact Hout]]].
    + rewrite Hwrites. vm_compute. reflexivity.
    + rewrite Hsamples. vm_compute. reflexivity.
Defined.

(** Two samples queued when the view is stopped: none is written. *)
Lemma processOutputFrames_shutdown_witness :
  let r := processOutputFrames bench_WriteSample bench_range
             (with_brv (set_shutdownCtx true)
                (bench_state bench_two_clients [[x01]; [x02]] None None)) in
  outcome r = Returns Returned ∧ trace r = [] ∧
  outputFrames (brv (final r)) = [[x02]].
Proof.
  destruct (processOutputFrames_shutdown bench_WriteSample bench_range
              (with_brv (set_shutdownCtx true)
                 (bench_state bench_two_clients [[x01]; [x02]] None None))
              [x01] [[x02]])
    as (Hout & Htrace & Hqueue & _).
  - reflexivity.
  - simpl. lia.
  - reflexivity.
  - split; [exact Hout|]. split; [exact Htrace|exact Hqueue].
Defined.

(** Three images and a factory without encoder. *)
Lemma factory_failure_stops_encoding_witness :
  let r := processInputFrames bench_New_failing bench_Encode bench_frames
             (bench_state bench_one_client [] None None) in
  outcome r = Returns Returned ∧
  trace r = [EvFactoryNew 4 3; EvLog LvlError "no encoder"] ∧
  outputFramesClosed (brv (final r)) = true.
Proof.
  destruct (factory_failure_stops_encoding bench_New_failing bench_Encode bench_frames
              (bench_state bench_one_client [] None None)
              (bench_frame 4 3 [x01]) "no encoder")
    as (Hout & Htrace & _ & _ & Hclosed & _).
  - reflexivity.
  - reflexivity.
  - reflexivity.
  - simpl. lia.
  - reflexivity.
  - reflexivity.
  - split; [exact Hout|]. split; [exact Htrace|exact Hclosed].
Defined.

(** Three images, the second of which the encoder fails on: all three are
    shown to it, the error is logged, and the two samples are queued. *)
Lemma every_image_reaches_encoder_witness :
  let r := processInputFrames bench_New bench_Encode_failing bench_frames
             (bench_state bench_one_client [] None None) in
  outcome r = Returns Blocked ∧
  (encodeCalls (trace r)).*1 =
    [bench_frame 4 3 [x01]; bench_frame 4 3 []; bench_frame 4 3 [x03]] ∧
  errorsLogged (trace r) = ["no pixels"] ∧
  outputFrames (brv (final r)) = [[x01]; [x03]].
Proof.
  destruct (every_image_reaches_encoder bench_New bench_Encode_failing bench_frames
              (bench_state bench_one_client [] None None))
    as (Hout & Hcalls & Herr & Hqueue).
  - reflexivity.
  - reflexivity.
  - reflexivity.
  - intros frame _. exists 0%nat. reflexivity.
  - split; [exact Hout|]. split; [exact Hcalls|]. split.
    + rewrite Herr. vm_compute. reflexivity.
    + rewrite Hqueue. vm_compute. reflexivity.
Defined.

(** A stopped view with a sample queued and three images pushed. *)
Lemma Stop_ends_pipeline_witness :
  let r := bind Stop (λ _, pipeline bench_New bench_Encode bench_WriteSample bench_range
                             bench_frames)
             (bench_state bench_one_client [[x09]] None None) in
  outcome r = Returns (Returned, Returned) ∧ trace r = [] ∧
  backgroundProcessing (brv (final r)) = 0.
Proof.
  destruct (Stop_ends_pipeline bench_New bench_Encode bench_WriteSample bench_range
              bench_frames (bench_state bench_one_client [[x09]] None None))
    as (Hout & Htrace & _ & _ & _ & _ & Hcount & _).
  - reflexivity.
  - simpl. lia.
  - split; [exact Hout|]. split; [exact Htrace|exact Hcount].
Defined.

(** The empty text is no command: the parse error goes back. *)
Lemma malformed_command_reply_witness :
  let r := dataChannel_OnMessage bench_SendText bench_Send bench_UnmarshalCommand
             10 (bench_text "") (bench_state bench_one_client [] None None) in
  outcome r = Returns tt ∧
  textsSent (trace r) = [(10%positive, "empty command")] ∧
  dataSent (trace r) = [].
Proof.
  destruct (malformed_command_reply bench_SendText bench_Send bench_UnmarshalCommand
              (bench_state bench_one_client [] None None) 10%positive (bench_text "")
              "empty command")
    as (Hout & _ & Htexts & Hdata & _).
  - reflexivity.
  - reflexivity.
  - reflexivity.
  - split; [exact Hout|]. split; [exact Htexts|exact Hdata].
Defined.

(** The binary response of ["snapshot"] goes back as one binary message. *)
Lemma command_response_sent_witness :
  let r := dataChannel_OnMessage bench_SendText bench_Send bench_UnmarshalCommand
             10 (bench_text "snapshot") (bench_state bench_one_client [] None None) in
  textsSent (trace r) = [] ∧
  dataSent (trace r) = [(10%positive, [x89; x50])].
Proof.
  destruct (command_response_sent bench_SendText bench_Send bench_UnmarshalCommand
              (bench_state bench_one_client [] None None) 10%positive
              (bench_text "snapshot") {| cmdName := "snapshot"; cmdArgs := [] |}
              {| data := [x89; x50]; isText := false |})
    as (Htexts & Hdata & _).
  - reflexivity.
  - reflexivity.
  - vm_compute. reflexivity.
  - vm_compute. reflexivity.
  - split; [exact Htexts|exact Hdata].
Defined.

(** A binary message on a view without data handler. *)
Lemma unanswered_messages_witness :
  dataChannel_OnMessage bench_SendText bench_Send bench_UnmarshalCommand
    10 {| IsString := false; msg_Data := [x01] |}
    (bench_state bench_one_client [] None None) =
  (Returns tt, bench_state bench_one_client [] None None, []).
Proof.
  apply (unanswered_messages bench_SendText bench_Send bench_UnmarshalCommand
           (bench_state bench_one_client [] None None) 10%positive
           {| IsString := false; msg_Data := [x01] |}).
  - reflexivity.
  - left. reflexivity.
Defined.

(** Three fields, and no handler. *)
Lemma click_field_count_witness :
  clickChannel_OnMessage ParseFloat32_decimal (λ _, 0) (bench_text "1,2,3")
    (bench_state bench_one_client [] None (Some 7%positive)) =
  (Panics "len(coords)", bench_state bench_one_client [] None (Some 7%positive), []) ∧
  clickChannel_OnMessage ParseFloat32_decimal (λ _, 0) (bench_text "1,2,3")
    (bench_state bench_one_client [] None None) =
  (Returns tt, bench_state bench_one_client [] None None, []).
Proof.
  split.
  - apply (click_field_count ParseFloat32_decimal (λ _, 0)
             (bench_state bench_one_client [] None (Some 7%positive)) (bench_text "1,2,3"))
      with (handler := 7%positive).
    + reflexivity.
    + vm_compute. discriminate.
  - apply (click_field_count ParseFloat32_decimal (λ _, 0)
             (bench_state bench_one_client [] None None) (bench_text "1,2,3")).
    reflexivity.
Defined.

(** A second field that is no number. *)
Lemma click_parse_error_witness :
  clickChannel_OnMessage ParseFloat32_decimal (λ _, 0) (bench_text "12.5,abc")
    (bench_state bench_one_client [] None (Some 7%positive)) =
  (Panics "invalid syntax", bench_state bench_one_client [] None (Some 7%positive), []).
Proof.
  apply (click_parse_error ParseFloat32_decimal (λ _, 0)
           (bench_state bench_one_client [] None (Some 7%positive)) 7%positive
           (bench_text "12.5,abc") "12.5" "abc" "invalid syntax").
  - reflexivity.
  - vm_compute. reflexivity.
  - right. split; vm_compute; reflexivity.
Defined.

(** A click on a view without click handler. *)
Lemma clickChannel_OnMessage_frame_witness :
  handlerCalls
    (trace (clickChannel_OnMessage ParseFloat32_decimal (λ _, 0) (bench_text "12.5,47.9")
              (bench_state bench_one_client [] None None))) = [].
Proof.
  apply (clickChannel_OnMessage_frame ParseFloat32_decimal (λ _, 0)
           (bench_state bench_one_client [] None None) (bench_text "12.5,47.9")).
  reflexivity.
Defined.

(** A handler installed and taken out again. *)
Lemma handler_installation_witness :
  bind (SetOnDataHandler (Some 5%positive)) (λ _, SetOnDataHandler None)
    (bench_state bench_one_client [] None None) =
  (Returns tt, bench_state bench_one_client [] None None, []).
Proof.
  apply (handler_installation bench_SendText bench_Send bench_UnmarshalCommand
           (bench_state bench_one_client [] None None) 5%positive None 10%positive
           (bench_text "snapshot")).
  reflexivity.
Defined.


(** A connection that comes up as the view is stopped, when the [select]
    takes the shutdown. *)
Lemma shutdown_worker_does_not_register_witness :
  connectionWorker 3 bench_client2 true true
    (with_brv (set_shutdownCtx true) (bench_state bench_one_client [] None None)) =
  (Returns Returned,
   with_brv (set_shutdownCtx true) (bench_state bench_one_client [] None None), []).
Proof.
  apply (shutdown_worker_does_not_register
           (with_brv (set_shutdownCtx true) (bench_state bench_one_client [] None None))
           3%positive bench_client2 true true).
  - simpl. lia.
  - reflexivity.
  - right. reflexivity.
Defined.

(** A report of connected on a view with two clients. *)
Lemma onICEConnectionStateChange_registry_witness :
  final (onICEConnectionStateChange 1 ICEConnectionStateConnected
           (bench_state bench_two_clients [] None None)) =
  bench_state bench_two_clients [] None None.
Proof.
  apply (onICEConnectionStateChange_registry (bench_state bench_two_clients [] None None)
           1%positive ICEConnectionStateConnected bench_client1).
  reflexivity.
Defined.

(** The routes of the streams 0 and 1. *)
Lemma handlerName_injective_witness :
  handlerName 0 = "offer_0" ∧ handlerName 1 ≠ handlerName 0.
Proof.
  split.
  - apply (handlerName_injective 0 0).
  - intros Heq. apply (handlerName_injective 1 0) in Heq. discriminate.
Defined.

(** A relayed remote candidate, a host remote candidate and a reflexive
    local candidate: the report holds the first. *)
Lemma getPeerConnectionStats_remote_candidates_witness :
  dom (getPeerConnectionStats (reverse bench_stats)).2 =
  dom (getPeerConnectionStats bench_stats).2 ∧
  (getPeerConnectionStats bench_stats).2 !! "peer-reflexive" = None.
Proof.
  destruct (getPeerConnectionStats_remote_candidates bench_stats)
    as (Hiff & _ & Hperm & _).
  split.
  - apply Hperm. apply reverse_Permutation.
  - apply eq_None_not_Some. intros Hsome. apply Hiff in Hsome.
    destruct Hsome as (ct & ip & Hmem & Hname & _).
    vm_compute in Hmem.
    repeat (apply elem_of_cons in Hmem as [Hmem|Hmem];
            [try discriminate; injection Hmem as -> ->; discriminate|]).
    by apply elem_of_nil in Hmem.
Defined.

Example getPeerConnectionStats_scenario :
  (getPeerConnectionStats bench_stats).1 = "PeerConnection-1" ∧
  map_to_list (getPeerConnectionStats bench_stats).2 = [("relay", "203.0.113.7")].
Proof. split; vm_compute; reflexivity. Qed.

(** Two blank lines, then the offer. *)
Lemma readOffer_first_line_witness :
  readOffer bench_TrimSpace 3 bench_body = Returns (Some "v=0").
Proof.
  apply (readOffer_first_line bench_TrimSpace bench_body
           [newline; "  " +:+ newline] (" v=0 " +:+ newline) ["rest"] 3%nat).
  - vm_compute. reflexivity.
  - repeat constructor.
  - vm_compute. discriminate.
  - right. discriminate.
  - simpl. lia.
Defined.

(** White space, then the connection breaks. *)
Lemma readOffer_read_error_witness :
  readOffer bench_TrimSpace 4 (bench_blank_body (Some "connection reset")) =
  Panics "connection reset".
Proof.
  apply (readOffer_read_error bench_TrimSpace (bench_blank_body (Some "connection reset"))
           "connection reset" 4%nat).
  - vm_compute. repeat constructor.
  - reflexivity.
  - vm_compute. lia.
Defined.

(** White space, then the end of the body: a thousand rounds later the
    loop is still reading. *)
Lemma readOffer_blank_body_witness :
  readOffer bench_TrimSpace 1000 (bench_blank_body None) = Returns None.
Proof.
  apply (readOffer_blank_body bench_TrimSpace (bench_blank_body None) 1000%nat).
  - reflexivity.
  - vm_compute. repeat constructor.
  - reflexivity.
Defined.
